(** * influence-flow: the scraper's extraction heuristics and the SQL generator

    A shallow embedding of [scrape_influencers.py], [generate_sql.py] and
    [generate_sql_lines.py].

    Python [str] values are sequences of Unicode code points and are modelled
    as [list N].  The operations of the interpreter and of its libraries that
    the scripts call ([str.strip], [str.replace], [in], [re], the tree
    navigation of BeautifulSoup) are modelled next to the code that uses
    them. *)

From Stdlib Require Import NArith List Bool Ascii String Lia.
From stdpp Require Import base list gmap.
Import ListNotations.
Open Scope N_scope.

(** ** Strings *)

Abbreviation str := (list N).

(** A string literal of the source, as code points (literals are ASCII). *)
Fixpoint lit (s : string) : str :=
  match s with
  | EmptyString => []
  | String a r => N_of_ascii a :: lit r
  end.

(** Truth value of a string: [if text:] holds for the non-empty ones. *)
Definition truthy (s : str) : bool :=
  match s with [] => false | _ :: _ => true end.

Definition str_eqb (a b : str) : bool := bool_decide (a = b).

(** [s.startswith(p)] *)
Fixpoint startswith (p s : str) : bool :=
  match p, s with
  | [], _ => true
  | _ :: _, [] => false
  | a :: p', b :: s' => (a =? b) && startswith p' s'
  end.

(** [sub in s] *)
Fixpoint contains (sub s : str) : bool :=
  startswith sub s ||
  match s with
  | [] => false
  | _ :: s' => contains sub s'
  end.

(** [s.replace(old, new)]: the occurrences of [old] are found left to right
    and do not overlap.  [skip] counts the characters of a replaced
    occurrence that are still to be passed over. *)
Fixpoint replace_from (old new : str) (skip : nat) (s : str) : str :=
  match s with
  | [] => []
  | c :: s' =>
      match skip with
      | S k => replace_from old new k s'
      | O =>
          if startswith old s
          then new ++ replace_from old new (Nat.pred (length old)) s'
          else c :: replace_from old new O s'
      end
  end.

Definition replace (old new s : str) : str :=
  match old with
  | [] => new ++ flat_map (fun c => c :: new) s
  | _ :: _ => replace_from old new O s
  end.

(** [sep.join(parts)] *)
Fixpoint join (sep : str) (parts : list str) : str :=
  match parts with
  | [] => []
  | [p] => p
  | p :: rest => p ++ sep ++ join sep rest
  end.

(** Characters [str.strip()] removes: the white space of the Unicode
    database, as [str.isspace] tests it. *)
Definition isspace (c : N) : bool :=
  ((9 <=? c) && (c <=? 13)) || ((28 <=? c) && (c <=? 32)) ||
  (c =? 133) || (c =? 160) || (c =? 5760) ||
  ((8192 <=? c) && (c <=? 8202)) || (c =? 8232) || (c =? 8233) ||
  (c =? 8239) || (c =? 8287) || (c =? 12288).

Fixpoint lstrip (s : str) : str :=
  match s with
  | [] => []
  | c :: s' => if isspace c then lstrip s' else s
  end.

Definition rstrip (s : str) : str := rev (lstrip (rev s)).

Definition strip (s : str) : str := rstrip (lstrip s).

(** Decimal digits: [\d] in a [str] pattern matches every character of the
    Unicode category Nd, the ASCII digits among them.  The table lists the
    first code point of each run of ten digits (Unicode 15), and the
    mathematical digits U+1D7CE to U+1D7FF. *)
Definition ascii_digit (c : N) : bool := (48 <=? c) && (c <=? 57).

Definition Nd_decades : list N :=
  [ 0x0030; 0x0660; 0x06F0; 0x07C0; 0x0966; 0x09E6; 0x0A66; 0x0AE6; 0x0B66;
    0x0BE6; 0x0C66; 0x0CE6; 0x0D66; 0x0DE6; 0x0E50; 0x0ED0; 0x0F20; 0x1040;
    0x1090; 0x17E0; 0x1810; 0x1946; 0x19D0; 0x1A80; 0x1A90; 0x1B50; 0x1BB0;
    0x1C40; 0x1C50; 0xA620; 0xA8D0; 0xA900; 0xA9D0; 0xA9F0; 0xAA50; 0xABF0;
    0xFF10; 0x104A0; 0x10D30; 0x11066; 0x110F0; 0x11136; 0x111D0; 0x112F0;
    0x11450; 0x114D0; 0x11650; 0x116C0; 0x11730; 0x118E0; 0x11950; 0x11C50;
    0x11D50; 0x11DA0; 0x11F50; 0x16A60; 0x16AC0; 0x16B50; 0x1E140; 0x1E2F0;
    0x1E4F0; 0x1E950; 0x1FBF0 ].

Definition unicode_Nd (c : N) : bool :=
  existsb (fun d => (d <=? c) && (c <=? d + 9)) Nd_decades ||
  ((0x1D7CE <=? c) && (c <=? 0x1D7FF)).

(** ** Regular expressions

    The patterns of the scripts use character sets, concatenation, [+], [?]
    and the anchors [^] and [$] only.  A pattern is matched by taking
    derivatives; for these patterns a match exists exactly when the
    backtracking matcher of [re] finds one. *)

Inductive regex : Type :=
| Void : regex
| Eps : regex
| Chars : (N -> bool) -> regex
| Cat : regex -> regex -> regex
| Or : regex -> regex -> regex
| Star : regex -> regex.

(** [r+] and [r?] *)
Definition Plus (r : regex) : regex := Cat r (Star r).
Definition Opt (r : regex) : regex := Or r Eps.

Fixpoint nullable (r : regex) : bool :=
  match r with
  | Void => false
  | Eps => true
  | Chars _ => false
  | Cat r1 r2 => nullable r1 && nullable r2
  | Or r1 r2 => nullable r1 || nullable r2
  | Star _ => true
  end.

Fixpoint deriv (c : N) (r : regex) : regex :=
  match r with
  | Void => Void
  | Eps => Void
  | Chars p => if p c then Eps else Void
  | Cat r1 r2 =>
      if nullable r1
      then Or (Cat (deriv c r1) r2) (deriv c r2)
      else Cat (deriv c r1) r2
  | Or r1 r2 => Or (deriv c r1) (deriv c r2)
  | Star r1 => Cat (deriv c r1) (Star r1)
  end.

(** The whole of [s] is matched by [r]. *)
Fixpoint fullmatch (r : regex) (s : str) : bool :=
  match s with
  | [] => nullable r
  | c :: s' => fullmatch (deriv c r) s'
  end.

(** [s] without a final line feed, when it ends in one. *)
Fixpoint chomp (s : str) : option str :=
  match s with
  | [] => None
  | [c] => if c =? 10 then Some [] else None
  | c :: s' => option_map (cons c) (chomp s')
  end.

(** [re.search('^r$', s)] and [re.match('^r$', s)], as truth values: without
    flags [^] matches at the start of the string only, and [$] at its end or
    just before a line feed that ends it. *)
Definition re_anchored (r : regex) (s : str) : bool :=
  fullmatch r s ||
  match chomp s with
  | Some s' => fullmatch r s'
  | None => false
  end.

(** The words of a pattern. *)
Inductive lang : regex -> str -> Prop :=
| lang_eps : lang Eps []
| lang_chars p c : p c = true -> lang (Chars p) [c]
| lang_cat r1 r2 s1 s2 : lang r1 s1 -> lang r2 s2 -> lang (Cat r1 r2) (s1 ++ s2)
| lang_or_l r1 r2 s : lang r1 s -> lang (Or r1 r2) s
| lang_or_r r1 r2 s : lang r2 s -> lang (Or r1 r2) s
| lang_star_nil r : lang (Star r) []
| lang_star_app r s1 s2 :
    lang r s1 -> lang (Star r) s2 -> lang (Star r) (s1 ++ s2).

(** ** [scrape_influencers.py]: the follower-count recognizer *)

Definition comma : N := 44.
Definition dot : N := 46.
Definition magnitude (c : N) : bool :=
  (c =? 107) || (c =? 75) || (c =? 109) || (c =? 77).

(** [[\d,]+(\.\d+)?[kKmM]?] over a class [d] of digits *)
Definition followers_re_of (d : N -> bool) : regex :=
  Cat (Plus (Chars (fun c => d c || (c =? comma))))
      (Cat (Opt (Cat (Chars (fun c => c =? dot)) (Plus (Chars d))))
           (Opt (Chars magnitude))).

Definition followers_re : regex := followers_re_of unicode_Nd.

Definition clean_followers (text : str) : str :=
  let text := strip text in
  if re_anchored followers_re text then text else [].

(** ** The parse tree

    What [BeautifulSoup(content, 'html.parser')] builds: tags with a name,
    an attribute dictionary and contents, and strings.  [Text] is a plain
    [NavigableString]; [Special] is a string of another class, which is a
    [str] as well.  The document itself is a tag named [[document]]. *)

(** The classes of the strings that are not plain text: [Comment] stands
    for the comments, declarations, doctypes and processing instructions;
    the others are the classes the parser gives to the strings inside
    script, style, template, rt and rp tags. *)
Inductive string_class : Type :=
| Comment
| Script
| Stylesheet
| TemplateString
| RubyTextString
| RubyParenthesisString.

Definition class_eqb (a b : string_class) : bool :=
  match a, b with
  | Comment, Comment | Script, Script | Stylesheet, Stylesheet
  | TemplateString, TemplateString | RubyTextString, RubyTextString
  | RubyParenthesisString, RubyParenthesisString => true
  | _, _ => false
  end.

#[warnings="-register-all"]
Inductive node : Type :=
| Text : str -> node
| Special : string_class -> str -> node
| Tag : str -> gmap str str -> list node -> node.

Definition is_tag (n : node) : bool :=
  match n with Tag _ _ _ => true | _ => false end.

Definition name_of (n : node) : option str :=
  match n with Tag nm _ _ => Some nm | _ => None end.

(** [tag.get(key)]: the attribute, or [None]. *)
Definition get (n : node) (key : str) : option str :=
  match n with Tag _ attrs _ => attrs !! key | _ => None end.

(** [tag.descendants]: everything below the tag, in document order. *)
Fixpoint descendants (n : node) : list node :=
  match n with
  | Tag _ _ cs => flat_map (fun c => c :: descendants c) cs
  | _ => []
  end.

(** The values of a [class] attribute: its pieces between white space. *)
Fixpoint split_ws (cur s : str) : list str :=
  match s with
  | [] => if truthy cur then [rev cur] else []
  | c :: s' =>
      if isspace c
      then (if truthy cur then rev cur :: split_ws [] s' else split_ws [] s')
      else split_ws (c :: cur) s'
  end.

Definition has_class (cls : str) (n : node) : bool :=
  match get n (lit "class") with
  | Some v => existsb (str_eqb cls) (split_ws [] v)
  | None => false
  end.

Definition has_name (nm : str) (n : node) : bool :=
  match n with Tag nm' _ _ => str_eqb nm nm' | _ => false end.

(** [tag.find_all(name)], [tag.find(name)], [tag.find_all(class_=cls)] *)
Definition find_all (nm : str) (n : node) : list node :=
  List.filter (has_name nm) (descendants n).

Definition find (nm : str) (n : node) : option node :=
  head (find_all nm n).

Definition find_all_class (cls : str) (n : node) : list node :=
  List.filter (has_class cls) (descendants n).

(** The class of strings [get_text] reads on a tag of the name [nm], when
    it is not the plain text: a script, style, template, rt or rp tag reads
    the strings of its own class and no other. *)
Definition string_container (nm : str) : option string_class :=
  if str_eqb nm (lit "script") then Some Script
  else if str_eqb nm (lit "style") then Some Stylesheet
  else if str_eqb nm (lit "template") then Some TemplateString
  else if str_eqb nm (lit "rt") then Some RubyTextString
  else if str_eqb nm (lit "rp") then Some RubyParenthesisString
  else None.

(** The string of [d] when [get_text] on the tag [n] reads it. *)
Definition read_by (n d : node) : option str :=
  match n, d with
  | Tag nm _ _, Text s =>
      match string_container nm with
      | None => Some s
      | Some _ => None
      end
  | Tag nm _ _, Special k s =>
      match string_container nm with
      | Some k' => if class_eqb k k' then Some s else None
      | None => None
      end
  | _, _ => None
  end.

(** [tag.get_text(strip=True)]: the strings below the tag that it reads,
    each one stripped, the empty ones dropped, joined without a separator. *)
Definition stripped_strings (n : node) : list str :=
  flat_map (fun d =>
              match read_by n d with
              | Some s => if truthy (strip s) then [strip s] else []
              | None => []
              end) (descendants n).

Definition get_text_strip (n : node) : str := concat (stripped_strings n).

(** A node met while walking the tree, with what the navigation attributes
    read: the siblings that follow it, and its ancestors from the parent up
    to the document, each with the siblings that follow it. *)
Record element : Type := Element {
  el_node : node;
  el_following : list node;
  el_parents : list (node * list node)
}.

(** The descendants of [n] in document order, each with its place;
    [following] and [ups] are the place of [n] itself. *)
Fixpoint elements_below (ups : list (node * list node)) (n : node)
    (following : list node) : list element :=
  match n with
  | Tag _ _ cs =>
      (fix each (cs : list node) : list element :=
         match cs with
         | [] => []
         | c :: cs' =>
             Element c cs' ((n, following) :: ups)
               :: elements_below ((n, following) :: ups) c cs' ++ each cs'
         end) cs
  | _ => []
  end.

(** [soup.find_all('a', href=True)], keeping the place of each anchor. *)
Definition is_anchor (n : node) : bool :=
  has_name (lit "a") n && bool_decide (is_Some (get n (lit "href"))).

Definition anchors (soup : node) : list element :=
  List.filter (fun e => is_anchor (el_node e)) (elements_below [] soup []).

(** [link['href']] of an anchor *)
Definition href_of (link : element) : str :=
  default [] (get (el_node link) (lit "href")).

(** [link.next_sibling], [link.parent], [link.parents] *)
Definition next_sibling (link : element) : option node :=
  head (el_following link).

Definition parent (link : element) : option (node * list node) :=
  head (el_parents link).

Definition parents (link : element) : list node :=
  map fst (el_parents link).

(** [tag.find_next_siblings()]: without arguments the search keeps the
    following siblings that are tags. *)
Definition find_next_siblings (p : node * list node) : list node :=
  List.filter is_tag (snd p).

(** ** [scrape_influencers.py]: the listing *)

Definition base_url : str := lit "https://www.liquorice.co.nz".
Definition main_list_url : str := lit "https://www.liquorice.co.nz/influencers-nz".

(** [profiles_to_scrape]: a dictionary, which keeps its keys in the order of
    their first insertion. *)
Abbreviation dict := (list (str * str)).

Fixpoint dict_set (d : dict) (k v : str) : dict :=
  match d with
  | [] => [(k, v)]
  | (k', v') :: d' =>
      if str_eqb k k' then (k', v) :: d' else (k', v') :: dict_set d' k v
  end.

Fixpoint dict_get (d : dict) (k : str) : option str :=
  match d with
  | [] => None
  | (k', v') :: d' => if str_eqb k k' then Some v' else dict_get d' k
  end.

(** [a or b] on attribute values, and the truth value of the result *)
Definition py_or (a b : option str) : option str :=
  match a with
  | Some s => if truthy s then a else b
  | None => b
  end.

Definition excluded_paths : list str :=
  [ []; lit "/"; lit "/influencers-nz"; lit "/contact"; lit "/who-are-we";
    lit "/how-influencer-marketing-works" ].

Definition is_nav_footer (link : element) : bool :=
  existsb (fun p =>
             match name_of p with
             | Some nm =>
                 existsb (str_eqb nm) [lit "header"; lit "footer"; lit "nav"]
             | None => false
             end
             ||
             match get p (lit "id") with
             | Some i =>
                 existsb (str_eqb i)
                   [lit "header"; lit "footer"; lit "mobileNav"]
             | None => false
             end) (parents link).

Section Listing.

(** [urllib.parse.urljoin], the reference resolution of the standard
    library. *)
Variable urljoin : str -> str -> str.

(** What one anchor of the listing adds to [profiles_to_scrape]: its
    resolved URL and the source of its image, or nothing. *)
Definition candidate (link : element) : option (str * str) :=
  let href := href_of link in
  let full_url := urljoin base_url href in
  if negb (startswith base_url full_url) then None else
  let path := replace base_url [] full_url in
  if existsb (str_eqb path) excluded_paths then None else
  if contains (lit "mailto:") href || contains (lit "tel:") href then None else
  if is_nav_footer link then None else
  match find (lit "img") (el_node link) with
  | Some img =>
      match py_or (get img (lit "data-src")) (get img (lit "src")) with
      | Some img_src =>
          if truthy img_src then
            let img_src :=
              if startswith (lit "//") img_src
              then lit "https:" ++ img_src else img_src in
            Some (full_url, img_src)
          else None
      | None => None
      end
  | None => None
  end.

Definition listing_step (profiles_to_scrape : dict) (link : element) : dict :=
  match candidate link with
  | Some (full_url, img_src) => dict_set profiles_to_scrape full_url img_src
  | None => profiles_to_scrape
  end.

(** Step 1, on the parsed listing page. *)
Definition collect_profiles (soup : node) : dict :=
  fold_left listing_step (anchors soup) [].

End Listing.

(** ** [scrape_influencers.py]: one profile page *)

(** [str.upper] maps every character on its own; [str.lower] reads the
    context of a capital sigma.  On ASCII both change the letters only;
    beyond ASCII they follow the case tables of the Unicode database, which
    the development takes as given. *)
Definition is_ascii (c : N) : bool := c <? 128.

Definition ascii_upper (c : N) : N :=
  if (97 <=? c) && (c <=? 122) then c - 32 else c.

Definition ascii_lower (c : N) : N :=
  if (65 <=? c) && (c <=? 90) then c + 32 else c.

(** The record of one profile, with the keys of the CSV header. *)
Record record : Type := mk_record {
  Name : str;
  Page_URL : str;
  Bio : str;
  Instagram : str;
  Instagram_Followers : str;
  TikTok : str;
  TikTok_Followers : str;
  Image_URL : str
}.

(** [[\d,.]+[kKmM]?], the bare numbers the biography leaves out *)
Definition number_re_of (d : N -> bool) : regex :=
  Cat (Plus (Chars (fun c => d c || (c =? comma) || (c =? dot))))
      (Opt (Chars magnitude)).

Definition number_re : regex := number_re_of unicode_Nd.

(** The text of a sibling in the walk: [get_text(strip=True)] where the
    sibling has it, its own stripped text otherwise. *)
Definition sibling_text (sibling : node) : str :=
  match sibling with
  | Tag _ _ _ => get_text_strip sibling
  | Text s | Special _ s => strip s
  end.

(** The walk over [link.parent.find_next_siblings()]: the first text the
    recognizer accepts, given up after a text of more than 20 characters. *)
Fixpoint walk_siblings (siblings : list node) : str :=
  match siblings with
  | [] => []
  | sibling :: rest =>
      let stext := sibling_text sibling in
      let cleaned := clean_followers stext in
      if truthy cleaned then cleaned
      else if (20 <? length stext)%nat then []
      else walk_siblings rest
  end.

(** [found_followers] for one anchor: the string right after the anchor,
    then the walk. *)
Definition found_followers (link : element) : str :=
  let found :=
    match next_sibling link with
    | Some (Text s) | Some (Special _ s) =>
        if truthy s then
          let cleaned := clean_followers s in
          if truthy cleaned then cleaned else []
        else []
    | _ => []
    end in
  if negb (truthy found) then
    match parent link with
    | Some p => walk_siblings (find_next_siblings p)
    | None => found
    end
  else found.

(** The four variables the loop over the anchors updates. *)
Record socials : Type := Socials {
  ig_handle : str;
  ig_followers : str;
  tt_handle : str;
  tt_followers : str
}.

(** What [requests.get] gives for a profile: an exception, or a response
    with its status code and its parsed content. *)
Inductive fetched : Type :=
| Raised : fetched
| Response : Z -> node -> fetched.

Section Profile.

Variable unicode_upper : N -> str.
Variable unicode_lower : str -> str.
Variable fetch : str -> fetched.

Definition upper (s : str) : str :=
  flat_map (fun c => if is_ascii c then [ascii_upper c] else unicode_upper c) s.

Definition lower (s : str) : str :=
  if forallb is_ascii s then map ascii_lower s else unicode_lower s.

(** The paragraphs the biography keeps, in the order the two loops append
    them. *)
Definition keep_paragraph (p : node) : list str :=
  let text := get_text_strip p in
  if negb (truthy text) then [] else
  let upper_text := upper text in
  if contains (lit "TIKTOK") upper_text || contains (lit "INSTAGRAM") upper_text
  then [] else
  if contains (lit "FOLLOWERS") upper_text || contains (lit "CONTACT") upper_text
  then [] else
  if re_anchored number_re text then [] else
  [text].

Definition paragraphs (soup : node) : list str :=
  flat_map (fun div => flat_map keep_paragraph (find_all (lit "p") div))
    (find_all_class (lit "sqs-html-content") soup).

Definition bio_text (soup : node) : str :=
  join (lit " ") (take 5 (paragraphs soup)).

(** The name: the text of the first [h1], or the placeholder. *)
Definition name_text (soup : node) : str :=
  match find (lit "h1") soup with
  | Some name_tag => get_text_strip name_tag
  | None => lit "Unknown"
  end.

(** The body of the loop over [all_links]: the Instagram block, then the
    TikTok block. *)
Definition socials_step (st : socials) (link : element) : socials :=
  let href := lower (href_of link) in
  let st :=
    if contains (lit "instagram.com") href then
      if negb (truthy (ig_followers st)) then
        let found := found_followers link in
        if truthy found then
          Socials (href_of link) found (tt_handle st) (tt_followers st)
        else if negb (truthy (ig_handle st)) then
          Socials (href_of link) (ig_followers st) (tt_handle st) (tt_followers st)
        else st
      else st
    else st in
  if contains (lit "tiktok.com") href then
    if negb (truthy (tt_followers st)) then
      let found := found_followers link in
      if truthy found then
        Socials (ig_handle st) (ig_followers st) (href_of link) found
      else if negb (truthy (tt_handle st)) then
        Socials (ig_handle st) (ig_followers st) (href_of link) (tt_followers st)
      else st
    else st
  else st.

Definition socials_of (soup : node) : socials :=
  fold_left socials_step (anchors soup) (Socials [] [] [] []).

(** The record built from a parsed profile page. *)
Definition extract (url image_url : str) (soup : node) : record :=
  let name := name_text soup in
  let bio := bio_text soup in
  let st := socials_of soup in
  mk_record name url bio (ig_handle st) (ig_followers st)
            (tt_handle st) (tt_followers st) image_url.

(** One turn of the loop of step 2 over [profiles_to_scrape.items()]. *)
Definition scrape_step (data : list record) (item : str * str) : list record :=
  let '(url, image_url) := item in
  match fetch url with
  | Raised => data
  | Response status_code soup =>
      if negb (status_code =? 200)%Z then data
      else data ++ [extract url image_url soup]
  end.

Definition scrape_profiles (profiles_to_scrape : dict) : list record :=
  fold_left scrape_step profiles_to_scrape [].

End Profile.

(** ** The SQL generators

    A row of [csv.DictReader] is a dictionary from the names of the header to
    the fields; a field the line does not reach is [None].  Looking up a
    name the header lacks raises [KeyError], and [None.replace] raises
    [AttributeError]; either ends the run. *)

Inductive exn : Type :=
| KeyError : str -> exn
| AttributeError : exn.

Inductive result (A : Type) : Type :=
| Ok : A -> result A
| Raise : exn -> result A.
Arguments Ok {A} _.
Arguments Raise {A} _.

Definition bind {A B : Type} (m : result A) (k : A -> result B) : result B :=
  match m with
  | Ok a => k a
  | Raise e => Raise e
  end.

Notation "x <- m ;; k" := (bind m (fun x => k))
  (at level 100, m at next level, right associativity).

(** [row[key]] *)
Definition getitem (row : gmap str (option str)) (key : str)
    : result (option str) :=
  match row !! key with
  | Some v => Ok v
  | None => Raise (KeyError key)
  end.

(** [v.replace("'", "''")] on a field *)
Definition quote : str := lit "'".

Definition replace_quotes (v : option str) : result str :=
  match v with
  | Some s => Ok (replace quote (quote ++ quote) s)
  | None => Raise AttributeError
  end.

(** The texts a run prints, one for each call of [print], and the exception
    that ended it. *)
Record run : Type := Run {
  printed : list str;
  raised : option exn
}.

Module GenerateSql.

Definition user_id : str := lit "eff94470-6759-4490-9c94-8277546e8ea9".

Definition columns : list str :=
  [ lit "user_id"; lit "name"; lit "category"; lit "status";
    lit "avatar_url"; lit "instagram_handle"; lit "followers";
    lit "tiktok_handle"; lit "tiktok_followers"; lit "source_url";
    lit "bio" ].

(** [sql_template.format(cols=cols, vals=vals)] *)
Definition sql_template (cols vals : str) : str :=
  lit "INSERT INTO public.talents (" ++ cols ++ lit ") VALUES " ++ vals ++ lit ";".

Definition category_of (source_url : str) : str :=
  if contains (lit "sports") source_url then lit "Sports"
  else if contains (lit "beauty") source_url then lit "Beauty"
  else if contains (lit "fashion") source_url then lit "Fashion"
  else if contains (lit "food") source_url then lit "Food"
  else if contains (lit "lifestyle") source_url then lit "Lifestyle"
  else lit "Influencer".

(** The body of the loop: [val_str] of one row. *)
Definition val_str (row : gmap str (option str)) : result str :=
  v <- getitem row (lit "Name") ;; name <- replace_quotes v ;;
  v <- getitem row (lit "Page URL") ;; source_url <- replace_quotes v ;;
  v <- getitem row (lit "Image URL") ;; avatar_url <- replace_quotes v ;;
  v <- getitem row (lit "Bio") ;; bio <- replace_quotes v ;;
  ig_url <- getitem row (lit "Instagram") ;;
  let ig_handle := ig_url in
  ig_handle <- replace_quotes ig_handle ;;
  v <- getitem row (lit "Instagram Followers") ;;
  ig_followers <- replace_quotes v ;;
  tt_url <- getitem row (lit "TikTok") ;;
  tt_handle <- replace_quotes tt_url ;;
  v <- getitem row (lit "TikTok Followers") ;;
  tt_followers <- replace_quotes v ;;
  let category := category_of source_url in
  let status := lit "active" in
  Ok (lit "('" ++ user_id ++ lit "', '" ++ name ++ lit "', '" ++ category
      ++ lit "', '" ++ status ++ lit "', '" ++ avatar_url ++ lit "', '"
      ++ ig_handle ++ lit "', '" ++ ig_followers ++ lit "', '" ++ tt_handle
      ++ lit "', '" ++ tt_followers ++ lit "', '" ++ source_url ++ lit "', '"
      ++ bio ++ lit "')").

(** The loop that fills [values]. *)
Fixpoint collect (values : list str) (rows : list (gmap str (option str)))
    : result (list str) :=
  match rows with
  | [] => Ok values
  | row :: rest => v <- val_str row ;; collect (values ++ [v]) rest
  end.

Definition main (rows : list (gmap str (option str))) : run :=
  let out := [lit "DELETE FROM public.talents;"] in
  match collect [] rows with
  | Ok values =>
      let all_vals := join (lit "," ++ [10]) values in
      let full_query := sql_template (join (lit ", ") columns) all_vals in
      Run (out ++ [full_query]) None
  | Raise e => Run out (Some e)
  end.

End GenerateSql.

Module GenerateSqlLines.

Definition user_id : str := lit "eff94470-6759-4490-9c94-8277546e8ea9".

Definition columns : list str :=
  [ lit "user_id"; lit "name"; lit "category"; lit "status";
    lit "avatar_url"; lit "instagram_handle"; lit "followers";
    lit "tiktok_handle"; lit "tiktok_followers"; lit "source_url";
    lit "bio" ].

Definition category_of (source_url : str) : str :=
  if contains (lit "sports") source_url then lit "Sports"
  else if contains (lit "beauty") source_url then lit "Beauty"
  else if contains (lit "fashion") source_url then lit "Fashion"
  else if contains (lit "food") source_url then lit "Food"
  else if contains (lit "lifestyle") source_url then lit "Lifestyle"
  else lit "Influencer".

Definition val_str (row : gmap str (option str)) : result str :=
  v <- getitem row (lit "Name") ;; name <- replace_quotes v ;;
  v <- getitem row (lit "Page URL") ;; source_url <- replace_quotes v ;;
  v <- getitem row (lit "Image URL") ;; avatar_url <- replace_quotes v ;;
  v <- getitem row (lit "Bio") ;; bio <- replace_quotes v ;;
  v <- getitem row (lit "Instagram") ;; ig_handle <- replace_quotes v ;;
  v <- getitem row (lit "Instagram Followers") ;;
  ig_followers <- replace_quotes v ;;
  v <- getitem row (lit "TikTok") ;; tt_handle <- replace_quotes v ;;
  v <- getitem row (lit "TikTok Followers") ;;
  tt_followers <- replace_quotes v ;;
  let category := category_of source_url in
  let status := lit "active" in
  Ok (lit "('" ++ user_id ++ lit "', '" ++ name ++ lit "', '" ++ category
      ++ lit "', '" ++ status ++ lit "', '" ++ avatar_url ++ lit "', '"
      ++ ig_handle ++ lit "', '" ++ ig_followers ++ lit "', '" ++ tt_handle
      ++ lit "', '" ++ tt_followers ++ lit "', '" ++ source_url ++ lit "', '"
      ++ bio ++ lit "')").

(** The statement of one row. *)
Definition sql_of (val_str : str) : str :=
  lit "INSERT INTO public.talents (" ++ join (lit ", ") columns
    ++ lit ") VALUES " ++ val_str ++ lit ";".

(** The loop, which prints a statement per row. *)
Fixpoint loop (out : list str) (rows : list (gmap str (option str))) : run :=
  match rows with
  | [] => Run out None
  | row :: rest =>
      match val_str row with
      | Ok v => loop (out ++ [sql_of v]) rest
      | Raise e => Run out (Some e)
      end
  end.

Definition main (rows : list (gmap str (option str))) : run :=
  loop [lit "DELETE FROM public.talents;"] rows.

End GenerateSqlLines.


(** ** The properties, as the specification words them

    The notions the claims are stated with, and the view of the loop over
    the anchors on one platform. *)

(** A follower count: one or more digits and commas, then optionally a
    point and one or more digits, then optionally one magnitude letter. *)
Definition followers_shape (digit : N -> bool) (t : str) : Prop :=
  exists body frac suffix : str,
    t = body ++ frac ++ suffix /\
    body <> [] /\
    forallb (fun c => digit c || (c =? comma)) body = true /\
    (frac = [] \/
     exists ds, frac = dot :: ds /\ ds <> [] /\ forallb digit ds = true) /\
    (suffix = [] \/ exists m, suffix = [m] /\ magnitude m = true).

(** A bare number: one or more digits, commas and points, then optionally
    one magnitude letter. *)
Definition number_shape (digit : N -> bool) (t : str) : Prop :=
  exists body suffix : str,
    t = body ++ suffix /\
    body <> [] /\
    forallb (fun c => digit c || (c =? comma) || (c =? dot)) body = true /\
    (suffix = [] \/ exists m, suffix = [m] /\ magnitude m = true).

(** The words whose presence, in any case, removes a paragraph from the
    biography. *)
Definition noise_words : list str :=
  [lit "TIKTOK"; lit "INSTAGRAM"; lit "FOLLOWERS"; lit "CONTACT"].

(** A paragraph text that the biography keeps. *)
Definition survives (unicode_upper : N -> str) (t : str) : Prop :=
  t <> [] /\
  (forall w, In w noise_words -> contains w (upper unicode_upper t) = false) /\
  ~ number_shape unicode_Nd t.

(** [kept P l k]: [k] is [l] without the elements that fail [P], in the
    order of [l]. *)
Inductive kept (P : str -> Prop) : list str -> list str -> Prop :=
| kept_nil : kept P [] []
| kept_keep t l k : P t -> kept P l k -> kept P (t :: l) (t :: k)
| kept_drop t l k : ~ P t -> kept P l k -> kept P (t :: l) k.

(** The texts of the paragraphs of the content containers, container by
    container in document order. *)
Definition paragraph_texts (soup : node) : list str :=
  map get_text_strip
    (flat_map (find_all (lit "p"))
       (find_all_class (lit "sqs-html-content") soup)).

(** The categories in their order of priority, each with the word that
    selects it. *)
Definition category_rules : list (str * str) :=
  [ (lit "sports", lit "Sports"); (lit "beauty", lit "Beauty");
    (lit "fashion", lit "Fashion"); (lit "food", lit "Food");
    (lit "lifestyle", lit "Lifestyle") ].

Definition first_category (source_url : str) : str :=
  match List.find (fun r => contains (fst r) source_url) category_rules with
  | Some r => snd r
  | None => lit "Influencer"
  end.

(** A field with each single quote doubled. *)
Definition escape (s : str) : str :=
  flat_map (fun c => if c =? 39 then [39; 39] else [c]) s.

(** The value tuple of a row, from the texts of its eleven columns in the
    order of the insertion. *)
Definition tuple_text (user_id name category status avatar_url
    instagram_handle followers tiktok_handle tiktok_followers source_url
    bio : str) : str :=
  lit "('" ++ user_id ++ lit "', '" ++ name ++ lit "', '" ++ category
  ++ lit "', '" ++ status ++ lit "', '" ++ avatar_url ++ lit "', '"
  ++ instagram_handle ++ lit "', '" ++ followers ++ lit "', '"
  ++ tiktok_handle ++ lit "', '" ++ tiktok_followers ++ lit "', '"
  ++ source_url ++ lit "', '" ++ bio ++ lit "')".

(** The value tuples of the rows, in the order of the rows. *)
Fixpoint tuples (val_str : gmap str (option str) -> result str)
    (rows : list (gmap str (option str))) : result (list str) :=
  match rows with
  | [] => Ok []
  | row :: rest =>
      v <- val_str row ;; vs <- tuples val_str rest ;; Ok (v :: vs)
  end.

Definition delete_statement : str := lit "DELETE FROM public.talents;".

(** A protocol-relative image source, made an https URL. *)
Definition secure (img_src : str) : str :=
  if startswith (lit "//") img_src then lit "https:" ++ img_src else img_src.

(** The source read from an image: the value of [data-src] when the image
    has one that is not empty, the value of [src] otherwise. *)
Definition image_source (img : node) (raw : str) : Prop :=
  raw <> [] /\
  (get img (lit "data-src") = Some raw \/
   ((get img (lit "data-src") = None \/ get img (lit "data-src") = Some []) /\
    get img (lit "src") = Some raw)).

(** The parts of a list one after the other, with [sep] before every part
    but the first. *)
Definition separated (sep : str) (parts : list str) : str :=
  match parts with
  | [] => []
  | p :: rest => p ++ flat_map (fun q => sep ++ q) rest
  end.

(** [tag.get_text()]: the strings the tag reads, as they are, one after the
    other.  The trimmed text of a paragraph is this text, stripped. *)
Definition get_text (n : node) : str :=
  flat_map (fun d =>
              match read_by n d with
              | Some s => s
              | None => []
              end) (descendants n).

(** The head of an insertion statement, up to the value tuples. *)
Definition insert_into : str :=
  lit "INSERT INTO public.talents (user_id, name, category, status, avatar_url, instagram_handle, followers, tiktok_handle, tiktok_followers, source_url, bio) VALUES ".

(** An anchor belongs to a platform when its [href], in lower case,
    contains the domain of the platform. *)
Definition on_platform (unicode_lower : str -> str) (domain : str)
    (link : element) : bool :=
  contains domain (lower unicode_lower (href_of link)).

(** The handle and the follower count of a platform over the anchors of a
    page: those of the first anchor of the platform with a follower count
    near it; without one, the [href] of the first anchor of the platform and
    no count. *)
Definition handle_and_count (of_platform : element -> bool)
    (links : list element) : str * str :=
  match List.find (fun l => of_platform l && truthy (found_followers l)) links with
  | Some l => (href_of l, found_followers l)
  | None =>
      match List.find of_platform links with
      | Some l => (href_of l, [])
      | None => ([], [])
      end
  end.

(** What one anchor does to the handle and the count of one platform. *)
Definition platform_step (of_platform : element -> bool) (hc : str * str)
    (link : element) : str * str :=
  if of_platform link && negb (truthy (snd hc)) then
    if truthy (found_followers link) then (href_of link, found_followers link)
    else if negb (truthy (fst hc)) then (href_of link, snd hc)
    else hc
  else hc.

(** ** Sample pages

    Small pages on which the definitions are run. *)

Definition attrs (l : list (str * str)) : gmap str str := list_to_map l.

Definition para (s : string) : node := Tag (lit "p") ∅ [Text (lit s)].

Definition link_to (href text : string) : node :=
  Tag (lit "a") (attrs [(lit "href", lit href)]) [Text (lit text)].

(** A profile: a heading, a biography, an Instagram link whose count is in
    the paragraph after it, a second Instagram link, and a TikTok link
    without a count. *)
Definition sample_profile : node :=
  Tag (lit "[document]") ∅
    [ Tag (lit "h1") ∅ [Text (lit " Jane Doe ")];
      Tag (lit "div") (attrs [(lit "class", lit "sqs-block sqs-html-content")])
        [ para "Runner and coach.";
          para "Her followers love her.";
          para "12.3k";
          para "Based in Auckland.";
          Tag (lit "p") ∅ [link_to "https://www.Instagram.com/jane" "Instagram"];
          para " 12.3k ";
          Tag (lit "p") ∅ [link_to "https://instagram.com/jane2" "Instagram"];
          para "9k";
          Tag (lit "p") ∅ [link_to "https://www.tiktok.com/@jane" "TikTok"];
          para "This paragraph is longer than twenty characters.";
          para "4k" ] ].

(** The same profile without its heading. *)
Definition sample_no_heading : node :=
  Tag (lit "[document]") ∅
    [ Tag (lit "div") (attrs [(lit "class", lit "sqs-html-content")])
        [ para "Runner and coach.";
          Tag (lit "p") ∅ [link_to "https://www.tiktok.com/@jane" "TikTok"] ] ].

(** A sibling whose text is a follower count of 25 characters, and a page
    where it follows the paragraph of an Instagram link. *)
Definition long_count : node := para " 1,234,567,890,123,456,789 ".

Definition sample_long_count : node :=
  Tag (lit "[document]") ∅
    [ Tag (lit "div") ∅
        [ Tag (lit "p") ∅ [link_to "https://instagram.com/big" "Instagram"];
          para "Follow me";
          long_count;
          para "12k" ] ].

(** A row of the CSV file, from its eight fields in the order of the
    header. *)
Definition csv_row (name page image bio ig igf tt ttf : str)
    : gmap str (option str) :=
  list_to_map
    [ (lit "Name", Some name); (lit "Page URL", Some page);
      (lit "Image URL", Some image); (lit "Bio", Some bio);
      (lit "Instagram", Some ig); (lit "Instagram Followers", Some igf);
      (lit "TikTok", Some tt); (lit "TikTok Followers", Some ttf) ].

Definition jane_row : gmap str (option str) :=
  csv_row (lit "Jane Doe")
    (lit "https://example.com/talent/jane-doe-sports-fan")
    (lit "//images.example.com/jane.jpg") (lit "Runner and coach.")
    (lit "https://instagram.com/janedoe") (lit "12.3k") [] [].

Definition brien_row : gmap str (option str) :=
  csv_row (lit "Conan O'Brien") (lit "https://example.com/talent/conan")
    [] (lit "It's him.") [] [] [] [].

(** [urljoin] on the references of the sample listing, whose base is a bare
    origin: a path that starts with a slash is put after the base, another
    reference is an absolute URL and is kept. *)
Definition urljoin_sample (base href : str) : str :=
  if startswith (lit "/") href then base ++ href else href.

Definition image (attributes : list (str * str)) : node :=
  Tag (lit "img") (attrs attributes) [].

Definition tile (href : string) (inside : list node) : node :=
  Tag (lit "a") (attrs [(lit "href", lit href)]) inside.

(** A listing: a link in the navigation, the link of the listing itself, a
    profile tile with a lazily loaded image, a profile link without an image
    and a link to another site. *)
Definition sample_listing : node :=
  Tag (lit "[document]") ∅
    [ Tag (lit "nav") ∅
        [ tile "/talent/from-the-menu" [image [(lit "src", lit "/logo.png")]] ];
      Tag (lit "div") ∅
        [ tile "/influencers-nz" [image [(lit "src", lit "/all.png")]];
          tile "/talent/jane-doe-sports-fan"
            [ Tag (lit "div") ∅
                [ image [ (lit "data-src", lit "//images.example.com/jane.jpg");
                          (lit "src", lit "/placeholder.gif") ] ] ];
          tile "/talent/no-image" [Text (lit "No image")];
          tile "https://other.example.com/talent/x"
            [image [(lit "src", lit "/x.png")]] ] ].

(** The pages behind two profile URLs: one is served, without a heading, the
    other is not found; any other fetch raises. *)
Definition fetch_sample (url : str) : fetched :=
  if str_eqb url (lit "https://www.liquorice.co.nz/talent/jane-doe-sports-fan")
  then Response 200 sample_no_heading
  else if str_eqb url (lit "https://www.liquorice.co.nz/talent/gone")
  then Response 404 sample_profile
  else Raised.

(** ** Notions for the further properties *)

(** The strings of a list, each at its first occurrence. *)
Fixpoint uniq (l : list str) : list str :=
  match l with
  | [] => []
  | x :: l' => x :: List.filter (fun y => negb (str_eqb y x)) (uniq l')
  end.

(** The candidates the anchors of a listing give, in document order. *)
Definition candidates_of (urljoin : str -> str -> str) (links : list element)
    : list (str * str) :=
  flat_map (fun link =>
              match candidate urljoin link with
              | Some c => [c]
              | None => []
              end) links.

Definition listing_candidates (urljoin : str -> str -> str) (soup : node)
    : list (str * str) :=
  candidates_of urljoin (anchors soup).

(** An ancestor that marks the navigation, the header or the footer. *)
Definition landmark (p : node) : Prop :=
  (exists nm, name_of p = Some nm /\
              In nm [lit "header"; lit "footer"; lit "nav"]) \/
  (exists i, get p (lit "id") = Some i /\
             In i [lit "header"; lit "footer"; lit "mobileNav"]).

(** A fetch that gives a page to read: no exception and status 200. *)
Definition fetched_ok (fetch : str -> fetched) (item : str * str) : bool :=
  match fetch (fst item) with
  | Raised => false
  | Response status_code _ => (status_code =? 200)%Z
  end.

(** A listing on which one profile appears twice, with different images,
    and a third time in a block that has the id of the footer. *)
Definition footer_block : node :=
  Tag (lit "div") (attrs [(lit "id", lit "footer")])
    [ Tag (lit "ul") ∅
        [ tile "/talent/jane" [image [(lit "src", lit "/third.jpg")]] ] ].

Definition sample_twice : node :=
  Tag (lit "[document]") ∅
    [ tile "/talent/jane" [image [(lit "src", lit "/first.jpg")]];
      tile "/talent/joe" [image [(lit "src", lit "//cdn.example.com/joe.jpg")]];
      tile "/talent/jane" [image [(lit "src", lit "/second.jpg")]];
      footer_block ].

(** [fieldnames], the header of the CSV file the scraper writes and the
    generators read. *)
Definition fieldnames : list str :=
  [ lit "Name"; lit "Page URL"; lit "Image URL"; lit "Bio"; lit "Instagram";
    lit "Instagram Followers"; lit "TikTok"; lit "TikTok Followers" ].

(** The reading of the inside of a quoted literal: two quotes in a row stand
    for one quote, and a quote on its own would end the literal. *)
Fixpoint unquote (t : str) : option str :=
  match t with
  | [] => Some []
  | c :: t' =>
      if c =? 39 then
        match t' with
        | c' :: t'' =>
            if c' =? 39 then option_map (cons 39) (unquote t'') else None
        | [] => None
        end
      else option_map (cons c) (unquote t')
  end.

(** A row that lacks the column of the biography, and a row whose line
    stops before it. *)
Definition row_without_bio : gmap str (option str) :=
  delete (lit "Bio") jane_row.

Definition row_short : gmap str (option str) :=
  <[lit "Bio" := None]> jane_row.

(** A paragraph whose number and magnitude letter are in two strings, with
    a blank between them, and a page that holds it. *)
Definition split_number : node :=
  Tag (lit "p") ∅ [Text (lit "12 "); Tag (lit "b") ∅ [Text (lit "k")]].

Definition sample_split_number : node :=
  Tag (lit "[document]") ∅
    [ Tag (lit "div") (attrs [(lit "class", lit "sqs-html-content")])
        [ split_number ] ].

(** A row of a line of the CSV file that stops after the image URL: the
    fields the line does not reach are [None]. *)
Definition row_cut : gmap str (option str) :=
  list_to_map
    [ (lit "Name", Some (lit "Joe Bloggs"));
      (lit "Page URL", Some (lit "https://example.com/talent/joe"));
      (lit "Image URL", Some (lit "https://images.example.com/joe.jpg"));
      (lit "Bio", None); (lit "Instagram", None);
      (lit "Instagram Followers", None); (lit "TikTok", None);
      (lit "TikTok Followers", None) ].

(** A profile with a heading, whose content container holds a paragraph and
    a second content container. *)
Definition sample_nested_page : node :=
  Tag (lit "[document]") ∅
    [ Tag (lit "h1") ∅ [Text (lit "Jane Doe")];
      Tag (lit "div") (attrs [(lit "class", lit "sqs-html-content")])
        [ para "Welcome.";
          Tag (lit "section") ∅
            [ Tag (lit "div")
                (attrs [(lit "class", lit "sqs-block sqs-html-content")])
                [ para "Runner and coach."; para "12k" ] ];
          para "Based in Auckland." ] ].

(** * Theorems *)

(** ** Strings *)

Lemma truthy_true (s : str) : truthy s = true <-> s <> [].
Proof. destruct s; simpl; split; congruence. Qed.

Lemma truthy_false (s : str) : truthy s = false <-> s = [].
Proof. destruct s; simpl; split; congruence. Qed.

Lemma str_eqb_eq (a b : str) : str_eqb a b = true <-> a = b.
Proof. unfold str_eqb. rewrite bool_decide_eq_true. tauto. Qed.

Lemma lstrip_head (s : str) :
  lstrip s = [] \/ exists c r, lstrip s = c :: r /\ isspace c = false.
Proof.
  induction s as [|c s IH]; simpl; [now left|].
  destruct (isspace c) eqn:E; [exact IH|].
  right. now exists c, s.
Qed.

Lemma strip_last (s : str) :
  strip s = [] \/ exists r c, strip s = r ++ [c] /\ isspace c = false.
Proof.
  unfold strip, rstrip.
  destruct (lstrip_head (rev (lstrip s))) as [E | (c & r & E & Hc)].
  - left. now rewrite E.
  - right. exists (rev r), c. now rewrite E.
Qed.

Lemma chomp_some (s t : str) : chomp s = Some t -> s = t ++ [10].
Proof.
  revert t. induction s as [|c s IH]; simpl; intros t H; [discriminate|].
  destruct s as [|c' s'].
  - destruct (N.eqb_spec c 10); [|discriminate].
    injection H as <-. now subst.
  - destruct (chomp (c' :: s')) as [u|] eqn:E; simpl in H; [|discriminate].
    injection H as <-. simpl. f_equal. now apply IH.
Qed.

Lemma chomp_strip (s : str) : chomp (strip s) = None.
Proof.
  destruct (chomp (strip s)) as [t|] eqn:E; [|reflexivity].
  apply chomp_some in E.
  destruct (strip_last s) as [H | (r & c & H & Hc)].
  - rewrite H in E. now destruct t.
  - rewrite H in E. apply app_inj_tail in E as [_ ->]. discriminate.
Qed.

(** ** Patterns: the matcher decides the words of the pattern *)

Create HintDb lang.
#[local] Hint Constructors lang : lang.

Lemma lang_cat_inv (r1 r2 : regex) (s : str) :
  lang (Cat r1 r2) s <->
  exists s1 s2, s = s1 ++ s2 /\ lang r1 s1 /\ lang r2 s2.
Proof.
  split.
  - inversion 1; subst. eauto.
  - intros (s1 & s2 & -> & H1 & H2). now constructor.
Qed.

Lemma lang_or_inv (r1 r2 : regex) (s : str) :
  lang (Or r1 r2) s <-> lang r1 s \/ lang r2 s.
Proof.
  split.
  - inversion 1; subst; auto.
  - intros [H | H]; auto with lang.
Qed.

Lemma lang_eps_inv (s : str) : lang Eps s <-> s = [].
Proof. split; [now inversion 1 | intros ->; auto with lang]. Qed.

Lemma lang_chars_inv (p : N -> bool) (s : str) :
  lang (Chars p) s <-> exists c, s = [c] /\ p c = true.
Proof.
  split.
  - inversion 1; subst. eauto.
  - intros (c & -> & H). auto with lang.
Qed.

Lemma nullable_lang (r : regex) : nullable r = true <-> lang r [].
Proof.
  induction r as [| |p|r1 IH1 r2 IH2|r1 IH1 r2 IH2|r IH]; simpl.
  - split; [discriminate | inversion 1].
  - split; [constructor | reflexivity].
  - split; [discriminate | inversion 1].
  - rewrite andb_true_iff, IH1, IH2, lang_cat_inv. split.
    + intros [H1 H2]. now exists [], [].
    + intros (s1 & s2 & E & H1 & H2).
      symmetry in E. apply app_eq_nil in E as [-> ->]. now split.
  - rewrite orb_true_iff, IH1, IH2, lang_or_inv. tauto.
  - split; [constructor | reflexivity].
Qed.

Lemma lang_star_cons (r : regex) (c : N) (s : str) :
  lang (Star r) (c :: s) ->
  exists s1 s2, s = s1 ++ s2 /\ lang r (c :: s1) /\ lang (Star r) s2.
Proof.
  intros H. remember (Star r) as q eqn:Eq. remember (c :: s) as w eqn:Ew.
  revert r c s Eq Ew.
  induction H as [| | | | | |r0 s1 s2 H1 _ H2 IH2]; intros r' c' s' Eq Ew;
    try discriminate.
  injection Eq as ->.
  destruct s1 as [|c1 s1]; simpl in Ew.
  - now apply IH2.
  - injection Ew as -> <-. now exists s1, s2.
Qed.

Lemma deriv_lang (c : N) (r : regex) (s : str) :
  lang (deriv c r) s <-> lang r (c :: s).
Proof.
  revert s.
  induction r as [| |p|r1 IH1 r2 IH2|r1 IH1 r2 IH2|r IH]; intros s; simpl.
  - split; inversion 1.
  - split; inversion 1.
  - destruct (p c) eqn:E.
    + rewrite lang_eps_inv, lang_chars_inv. split.
      * intros ->. now exists c.
      * intros (c' & [= -> ->] & _). reflexivity.
    + split; [inversion 1|].
      rewrite lang_chars_inv. intros (c' & [= -> ->] & H). congruence.
  - assert (Hcat : lang (Cat (deriv c r1) r2) s <->
                   exists s1 s2, s = s1 ++ s2 /\ lang r1 (c :: s1) /\ lang r2 s2).
    { rewrite lang_cat_inv. split; intros (s1 & s2 & E & H1 & H2);
        exists s1, s2; (split; [exact E|]); (split; [|exact H2]);
        now apply IH1. }
    rewrite (lang_cat_inv r1 r2).
    destruct (nullable r1) eqn:En.
    + rewrite lang_or_inv, Hcat, IH2. split.
      * intros [(s1 & s2 & -> & H1 & H2) | H].
        -- now exists (c :: s1), s2.
        -- exists [], (c :: s). repeat split; [|exact H].
           now apply nullable_lang.
      * intros (s1 & s2 & E & H1 & H2). destruct s1 as [|c1 s1]; simpl in E.
        -- right. now rewrite E.
        -- injection E as <- ->. left. now exists s1, s2.
    + rewrite Hcat. split.
      * intros (s1 & s2 & -> & H1 & H2). now exists (c :: s1), s2.
      * intros (s1 & s2 & E & H1 & H2). destruct s1 as [|c1 s1]; simpl in E.
        -- apply nullable_lang in H1. congruence.
        -- injection E as <- ->. now exists s1, s2.
  - rewrite !lang_or_inv, IH1, IH2. tauto.
  - rewrite lang_cat_inv. split.
    + intros (s1 & s2 & -> & H1 & H2). apply IH in H1.
      now apply (lang_star_app r (c :: s1) s2).
    + intros H. apply lang_star_cons in H as (s1 & s2 & -> & H1 & H2).
      exists s1, s2. repeat split; [|exact H2]. now apply IH.
Qed.

Lemma fullmatch_lang (r : regex) (s : str) :
  fullmatch r s = true <-> lang r s.
Proof.
  revert r. induction s as [|c s IH]; intros r; simpl.
  - apply nullable_lang.
  - rewrite IH. apply deriv_lang.
Qed.

Lemma lang_star_chars (p : N -> bool) (s : str) :
  lang (Star (Chars p)) s <-> forallb p s = true.
Proof.
  split.
  - intros H. remember (Star (Chars p)) as q eqn:Eq. revert Eq.
    induction H as [| | | | | |r0 s1 s2 H1 _ H2 IH2]; intros Eq;
      try discriminate; [reflexivity|].
    injection Eq as ->. apply lang_chars_inv in H1 as (c & -> & Hc).
    simpl. rewrite Hc. now apply IH2.
  - induction s as [|c s IH]; simpl; intros H; [constructor|].
    apply andb_true_iff in H as [Hc Hs].
    apply (lang_star_app (Chars p) [c] s); [now constructor | now apply IH].
Qed.

Lemma lang_plus_chars (p : N -> bool) (s : str) :
  lang (Plus (Chars p)) s <-> s <> [] /\ forallb p s = true.
Proof.
  unfold Plus. rewrite lang_cat_inv. split.
  - intros (s1 & s2 & -> & H1 & H2).
    apply lang_chars_inv in H1 as (c & -> & Hc).
    apply lang_star_chars in H2. simpl. rewrite Hc. now split.
  - intros [Hne H]. destruct s as [|c s]; [congruence|].
    simpl in H. apply andb_true_iff in H as [Hc Hs].
    exists [c], s. repeat split; [now constructor | now apply lang_star_chars].
Qed.

Lemma lang_opt (r : regex) (s : str) : lang (Opt r) s <-> s = [] \/ lang r s.
Proof. unfold Opt. rewrite lang_or_inv, lang_eps_inv. tauto. Qed.

(** The pattern of the recognizer accepts the follower counts. *)
Lemma followers_re_shape (d : N -> bool) (t : str) :
  lang (followers_re_of d) t <-> followers_shape d t.
Proof.
  unfold followers_re_of, followers_shape. rewrite lang_cat_inv. split.
  - intros (body & rest & -> & Hb & Hr).
    apply lang_cat_inv in Hr as (frac & suffix & -> & Hf & Hs).
    apply lang_plus_chars in Hb as [Hb1 Hb2].
    apply lang_opt in Hf. apply lang_opt in Hs.
    exists body, frac, suffix. repeat split; try assumption.
    + destruct Hf as [-> | Hf]; [now left | right].
      apply lang_cat_inv in Hf as (p & ds & -> & Hp & Hd).
      apply lang_chars_inv in Hp as (c & -> & Hc).
      apply N.eqb_eq in Hc as ->.
      apply lang_plus_chars in Hd as [Hd1 Hd2]. now exists ds.
    + destruct Hs as [-> | Hs]; [now left | right].
      now apply lang_chars_inv in Hs.
  - intros (body & frac & suffix & -> & Hb1 & Hb2 & Hf & Hs).
    exists body, (frac ++ suffix). repeat split.
    + now apply lang_plus_chars.
    + constructor.
      * apply lang_opt. destruct Hf as [-> | (ds & -> & Hd1 & Hd2)];
          [now left | right].
        apply (lang_cat _ _ [dot] ds).
        -- constructor. apply N.eqb_refl.
        -- now apply lang_plus_chars.
      * apply lang_opt. destruct Hs as [-> | Hs]; [now left | right].
        now apply lang_chars_inv.
Qed.

Lemma re_anchored_strip (r : regex) (s : str) :
  re_anchored r (strip s) = fullmatch r (strip s).
Proof. unfold re_anchored. rewrite chomp_strip. apply orb_false_r. Qed.

(** ** The follower-count recognizer *)

Lemma clean_followers_accepts (s : str) :
  clean_followers s = if fullmatch followers_re (strip s) then strip s else [].
Proof. unfold clean_followers. now rewrite re_anchored_strip. Qed.

(** C1, as amended: [clean_followers] returns the trimmed string when it is
    one or more decimal digits and commas, then optionally a point and one or
    more decimal digits, then optionally one of [k], [K], [m], [M], where a
    decimal digit is any character [\d] matches (Unicode category Nd); it
    returns the empty string for every other input. *)
Theorem clean_followers_recognizer (s : str) :
  (followers_shape unicode_Nd (strip s) /\ clean_followers s = strip s) \/
  (~ followers_shape unicode_Nd (strip s) /\ clean_followers s = []).
Proof.
  rewrite clean_followers_accepts.
  destruct (fullmatch followers_re (strip s)) eqn:E.
  - left. split; [|reflexivity].
    now apply followers_re_shape, fullmatch_lang.
  - right. split; [|reflexivity].
    intros H. apply followers_re_shape, fullmatch_lang in H.
    unfold followers_re in E. congruence.
Qed.

(** C1, as the specification states it with [[0-9]], fails: the single
    character U+0663 (ARABIC-INDIC DIGIT THREE) is not of the ASCII shape,
    and the recognizer returns it. *)
Lemma clean_followers_arabic_indic_digit :
  ~ followers_shape ascii_digit (strip [0x663]) /\
  clean_followers [0x663] = [0x663] /\
  clean_followers [0x663] <> [].
Proof.
  split; [|split; [reflexivity | discriminate]].
  intros H. apply followers_re_shape, fullmatch_lang in H.
  vm_compute in H. discriminate.
Qed.

(** On ASCII text the two readings of a digit agree, and the recognizer is
    the one of the pattern with [[0-9]]. *)
Lemma unicode_Nd_ascii (c : N) : c < 128 -> unicode_Nd c = ascii_digit c.
Proof.
  intros Hc.
  assert (H : forallb (fun n => Bool.eqb (unicode_Nd (N.of_nat n))
                                  (ascii_digit (N.of_nat n)))
                (seq 0 128) = true) by (vm_compute; reflexivity).
  rewrite forallb_forall in H.
  specialize (H (N.to_nat c)). rewrite N2Nat.id in H.
  apply eqb_prop, H, in_seq. lia.
Qed.

Lemma forallb_agree (p q : N -> bool) (s : str) :
  (forall c, In c s -> p c = q c) -> forallb p s = forallb q s.
Proof.
  induction s as [|c s IH]; simpl; intros H; [reflexivity|].
  rewrite (H c (or_introl eq_refl)), IH; [reflexivity|].
  intros c' Hc'. apply H. now right.
Qed.

Lemma followers_shape_agree (d1 d2 : N -> bool) (t : str) :
  (forall c, In c t -> d1 c = d2 c) ->
  followers_shape d1 t -> followers_shape d2 t.
Proof.
  intros Hd (body & frac & suffix & -> & Hb1 & Hb2 & Hf & Hs).
  exists body, frac, suffix. repeat split; try assumption.
  - rewrite <- Hb2. apply forallb_agree. intros c Hc.
    rewrite (Hd c); [reflexivity|]. apply in_or_app. now left.
  - destruct Hf as [-> | (ds & -> & Hd1 & Hd2)]; [now left | right].
    exists ds. repeat split; try assumption.
    rewrite <- Hd2. apply forallb_agree. intros c Hc. symmetry. apply Hd.
    apply in_or_app. right. apply in_or_app. left. now right.
Qed.

Lemma lstrip_incl (s : str) (c : N) : In c (lstrip s) -> In c s.
Proof.
  induction s as [|a s IH]; simpl; [tauto|].
  destruct (isspace a); simpl; [auto | tauto].
Qed.

Lemma strip_incl (s : str) (c : N) : In c (strip s) -> In c s.
Proof.
  unfold strip, rstrip. intros H.
  apply in_rev, lstrip_incl in H. rewrite <- in_rev in H.
  now apply lstrip_incl.
Qed.

Lemma clean_followers_ascii (s : str) :
  forallb is_ascii s = true ->
  (followers_shape ascii_digit (strip s) /\ clean_followers s = strip s) \/
  (~ followers_shape ascii_digit (strip s) /\ clean_followers s = []).
Proof.
  intros Ha. rewrite forallb_forall in Ha.
  assert (Hd : forall c, In c (strip s) -> unicode_Nd c = ascii_digit c).
  { intros c Hc. apply unicode_Nd_ascii. apply strip_incl, Ha in Hc.
    now apply N.ltb_lt in Hc. }
  rewrite clean_followers_accepts. unfold followers_re.
  destruct (fullmatch (followers_re_of unicode_Nd) (strip s)) eqn:E.
  - left. split; [|reflexivity].
    apply fullmatch_lang, followers_re_shape in E. revert E.
    now apply followers_shape_agree.
  - right. split; [|reflexivity]. intros H.
    assert (H' : followers_shape unicode_Nd (strip s)).
    { revert H. apply followers_shape_agree. intros c Hc. symmetry.
      now apply Hd. }
    apply followers_re_shape, fullmatch_lang in H'. congruence.
Qed.

(** ** The walk over the siblings *)

Lemma walk_siblings_skip (pre rest : list node) :
  (forall s, In s pre ->
     clean_followers (sibling_text s) = [] /\
     (length (sibling_text s) <= 20)%nat) ->
  walk_siblings (pre ++ rest) = walk_siblings rest.
Proof.
  induction pre as [|s pre IH]; intros H; [reflexivity|].
  simpl. destruct (H s (or_introl eq_refl)) as [Hc Hl].
  rewrite Hc. simpl.
  destruct (Nat.ltb_spec 20 (length (sibling_text s))); [lia|].
  apply IH. intros s' Hs'. apply H. now right.
Qed.

(** C10: in the walk the recognizer is asked before the length is looked
    at.  A sibling the recognizer accepts gives the follower count whatever
    its length, also beyond 20 characters; a sibling it rejects ends the walk
    when its text is longer than 20 characters and is passed over
    otherwise. *)
Theorem walk_siblings_recognizer_first (pre post : list node) (sib : node) :
  (forall s, In s pre ->
     clean_followers (sibling_text s) = [] /\
     (length (sibling_text s) <= 20)%nat) ->
  (clean_followers (sibling_text sib) <> [] ->
   walk_siblings (pre ++ sib :: post) = clean_followers (sibling_text sib)) /\
  (clean_followers (sibling_text sib) = [] ->
   walk_siblings (pre ++ sib :: post) =
     if (20 <? length (sibling_text sib))%nat then [] else walk_siblings post).
Proof.
  intros Hpre. rewrite (walk_siblings_skip pre (sib :: post) Hpre). simpl.
  split; intros H.
  - apply truthy_true in H. now rewrite H.
  - now rewrite H.
Qed.

Lemma walk_siblings_recognizer_first_witness :
  (20 < length (sibling_text long_count))%nat /\
  ig_followers (socials_of id sample_long_count)
  = lit "1,234,567,890,123,456,789" /\
  walk_siblings ([para "Follow me"] ++ long_count :: [para "12k"])
  = lit "1,234,567,890,123,456,789".
Proof.
  split; [vm_compute; lia|]. split; [vm_compute; reflexivity|].
  refine (eq_trans
    (proj1 (walk_siblings_recognizer_first
              [para "Follow me"] [para "12k"] long_count _) _) _).
  - intros s [<- | []]. split; [reflexivity | vm_compute; lia].
  - vm_compute. discriminate.
  - vm_compute. reflexivity.
Defined.

(** ** Handles and follower counts of a page *)

Lemma found_followers_walk (link : element) (p : node * list node) :
  parent link = Some p ->
  match next_sibling link with
  | Some (Text s) | Some (Special _ s) => clean_followers s = []
  | _ => True
  end ->
  found_followers link = walk_siblings (find_next_siblings p).
Proof.
  intros Hp Hn. unfold found_followers. rewrite Hp.
  destruct (next_sibling link) as [[s|k s|nm at_ cs]|]; try reflexivity;
    rewrite Hn; now destruct (truthy s).
Qed.

(** A script sibling gives its own body, which no other tag reads. *)
Lemma sibling_text_script :
  walk_siblings [Tag (lit "script") ∅ [Special Script (lit " 12k ")]]
    = lit "12k" /\
  get_text_strip
    (Tag (lit "p") ∅
       [ Text (lit " About ");
         Tag (lit "script") ∅ [Special Script (lit "12k")];
         Special Comment (lit "12k") ])
    = lit "About".
Proof. split; reflexivity. Qed.

Lemma platform_fold_frozen (m : element -> bool) (links : list element)
    (h c : str) :
  c <> [] -> fold_left (platform_step m) links (h, c) = (h, c).
Proof.
  intros Hc. induction links as [|l links IH]; [reflexivity|].
  simpl. unfold platform_step at 2. simpl.
  apply truthy_true in Hc. rewrite Hc, andb_false_r. exact IH.
Qed.

Lemma platform_fold_empty (m : element -> bool) (links : list element)
    (h : str) :
  (forall l, m l = true -> href_of l <> []) ->
  fold_left (platform_step m) links (h, []) =
  match List.find (fun l => m l && truthy (found_followers l)) links with
  | Some l => (href_of l, found_followers l)
  | None =>
      if truthy h then (h, [])
      else match List.find m links with
           | Some l => (href_of l, [])
           | None => ([], [])
           end
  end.
Proof.
  intros Hm. revert h. induction links as [|l links IH]; intros h.
  - simpl. now destruct h.
  - simpl. unfold platform_step at 2. simpl. rewrite andb_true_r.
    destruct (m l) eqn:El; simpl.
    + destruct (truthy (found_followers l)) eqn:Ef.
      * apply platform_fold_frozen. now apply truthy_true.
      * destruct (truthy h) eqn:Eh; simpl; rewrite IH.
        -- now rewrite Eh.
        -- assert (Hl : truthy (href_of l) = true)
             by now apply truthy_true, Hm.
           now rewrite Hl.
    + apply IH.
Qed.

Section Socials.

Variable unicode_lower : str -> str.

Lemma on_platform_href (domain : str) (link : element) :
  domain <> [] ->
  on_platform unicode_lower domain link = true -> href_of link <> [].
Proof.
  intros Hd H E. unfold on_platform in H. rewrite E in H.
  destruct domain; [congruence | discriminate].
Qed.

(** The cases of one turn of the loop: the tests of the Instagram block,
    then those of the TikTok block on the state it leaves. *)
Ltac socials_cases ic ih tc th :=
  unfold socials_step, platform_step, on_platform;
  cbn [ig_handle ig_followers tt_handle tt_followers fst snd];
  destruct (contains (lit "instagram.com") _), (truthy ic),
    (truthy (found_followers _)), (truthy ih);
  cbn [negb andb ig_handle ig_followers tt_handle tt_followers];
  destruct (contains (lit "tiktok.com") _), (truthy tc), (truthy th);
  reflexivity.

Lemma socials_step_instagram (st : socials) (link : element) :
  let st' := socials_step unicode_lower st link in
  (ig_handle st', ig_followers st') =
  platform_step (on_platform unicode_lower (lit "instagram.com"))
    (ig_handle st, ig_followers st) link.
Proof. destruct st as [ih ic th tc]. socials_cases ic ih tc th. Qed.

Lemma socials_step_tiktok (st : socials) (link : element) :
  let st' := socials_step unicode_lower st link in
  (tt_handle st', tt_followers st') =
  platform_step (on_platform unicode_lower (lit "tiktok.com"))
    (tt_handle st, tt_followers st) link.
Proof. destruct st as [ih ic th tc]. socials_cases ic ih tc th. Qed.

Lemma socials_fold_instagram (links : list element) (st : socials) :
  let st' := fold_left (socials_step unicode_lower) links st in
  (ig_handle st', ig_followers st') =
  fold_left (platform_step (on_platform unicode_lower (lit "instagram.com")))
    links (ig_handle st, ig_followers st).
Proof.
  revert st. induction links as [|l links IH]; intros st; [reflexivity|].
  simpl. rewrite <- socials_step_instagram. apply IH.
Qed.

Lemma socials_fold_tiktok (links : list element) (st : socials) :
  let st' := fold_left (socials_step unicode_lower) links st in
  (tt_handle st', tt_followers st') =
  fold_left (platform_step (on_platform unicode_lower (lit "tiktok.com")))
    links (tt_handle st, tt_followers st).
Proof.
  revert st. induction links as [|l links IH]; intros st; [reflexivity|].
  simpl. rewrite <- socials_step_tiktok. apply IH.
Qed.

(** A platform whose count is recorded keeps its pair over more anchors;
    [L] is the projection of the loop on the platform. *)
Ltac frozen_pair L :=
  let E := fresh "E" in
  pose proof L as E; cbv zeta in E;
  rewrite platform_fold_frozen in E by assumption; congruence.

(** C2: for each platform the handle and the follower count of a page are
    those of the first anchor of the platform near which a count is found,
    and, when no such anchor exists, the [href] of the first anchor of the
    platform with an empty count; once a count is recorded no later anchor
    changes the handle or the count of that platform. *)
Theorem socials_one_pair_per_platform (soup : node) :
  let ig := on_platform unicode_lower (lit "instagram.com") in
  let tt := on_platform unicode_lower (lit "tiktok.com") in
  let st := socials_of unicode_lower soup in
  (ig_handle st, ig_followers st) = handle_and_count ig (anchors soup) /\
  (tt_handle st, tt_followers st) = handle_and_count tt (anchors soup) /\
  forall (st0 : socials) (links : list element),
    let st1 := fold_left (socials_step unicode_lower) links st0 in
    (ig_followers st0 <> [] ->
     ig_handle st1 = ig_handle st0 /\ ig_followers st1 = ig_followers st0) /\
    (tt_followers st0 <> [] ->
     tt_handle st1 = tt_handle st0 /\ tt_followers st1 = tt_followers st0).
Proof.
  cbv zeta. unfold socials_of. repeat split.
  - rewrite socials_fold_instagram. simpl.
    rewrite platform_fold_empty; [reflexivity|].
    intros l. now apply on_platform_href.
  - rewrite socials_fold_tiktok. simpl.
    rewrite platform_fold_empty; [reflexivity|].
    intros l. now apply on_platform_href.
  - frozen_pair (socials_fold_instagram links st0).
  - frozen_pair (socials_fold_instagram links st0).
  - frozen_pair (socials_fold_tiktok links st0).
  - frozen_pair (socials_fold_tiktok links st0).
Qed.

End Socials.

Lemma socials_one_pair_per_platform_witness :
  let st0 := socials_of id sample_profile in
  let st1 := fold_left (socials_step id) (anchors sample_profile) st0 in
  ig_followers st0 <> [] /\
  ig_handle st1 = ig_handle st0 /\ ig_followers st1 = ig_followers st0.
Proof.
  cbv zeta. split; [vm_compute; discriminate|].
  apply (proj1 (proj2 (proj2
    (socials_one_pair_per_platform id sample_profile))
    (socials_of id sample_profile) (anchors sample_profile))).
  vm_compute. discriminate.
Defined.

(** ** The biography *)

Lemma number_re_shape (d : N -> bool) (t : str) :
  lang (number_re_of d) t <-> number_shape d t.
Proof.
  unfold number_re_of, number_shape. rewrite lang_cat_inv. split.
  - intros (body & suffix & -> & Hb & Hs).
    apply lang_plus_chars in Hb as [Hb1 Hb2]. apply lang_opt in Hs.
    exists body, suffix. repeat split; try assumption.
    destruct Hs as [-> | Hs]; [now left | right].
    now apply lang_chars_inv in Hs.
  - intros (body & suffix & -> & Hb1 & Hb2 & Hs).
    exists body, suffix. repeat split.
    + now apply lang_plus_chars.
    + apply lang_opt. destruct Hs as [-> | Hs]; [now left | right].
      now apply lang_chars_inv.
Qed.

Lemma concat_last (l : list str) :
  (forall x, In x l -> exists r c, x = r ++ [c] /\ isspace c = false) ->
  concat l = [] \/ exists r c, concat l = r ++ [c] /\ isspace c = false.
Proof.
  induction l as [|x l IH]; intros H; [now left|].
  simpl. destruct IH as [E | (r & c & E & Hc)].
  - intros y Hy. apply H. now right.
  - rewrite E, app_nil_r. right. apply H. now left.
  - right. exists (x ++ r), c. rewrite E, app_assoc. now split.
Qed.

Lemma get_text_strip_last (n : node) :
  get_text_strip n = [] \/
  exists r c, get_text_strip n = r ++ [c] /\ isspace c = false.
Proof.
  unfold get_text_strip. apply concat_last.
  intros x Hx. unfold stripped_strings in Hx.
  apply in_flat_map in Hx as (d & _ & Hx).
  destruct (read_by n d) as [s|]; [|contradiction].
  destruct (truthy (strip s)) eqn:E; [|contradiction].
  destruct Hx as [<- | []].
  destruct (strip_last s) as [H | H]; [|exact H].
  rewrite H in E. discriminate.
Qed.

Lemma chomp_get_text_strip (n : node) : chomp (get_text_strip n) = None.
Proof.
  destruct (chomp (get_text_strip n)) as [t|] eqn:E; [|reflexivity].
  apply chomp_some in E.
  destruct (get_text_strip_last n) as [H | (r & c & H & Hc)].
  - rewrite H in E. now destruct t.
  - rewrite H in E. apply app_inj_tail in E as [_ ->]. discriminate.
Qed.

Section Biography.

Variable unicode_upper : N -> str.

(** A paragraph whose text in upper case holds the noise word of [E] is
    dropped and does not survive. *)
Ltac noise_word E :=
  let H := fresh "H" in
  right; split; [|reflexivity]; intros (_ & H & _);
  rewrite H in E; [discriminate | cbn [In]; tauto].

Lemma keep_paragraph_survives (p : node) :
  (survives unicode_upper (get_text_strip p) /\
   keep_paragraph unicode_upper p = [get_text_strip p]) \/
  (~ survives unicode_upper (get_text_strip p) /\
   keep_paragraph unicode_upper p = []).
Proof.
  unfold keep_paragraph, survives, noise_words. cbv zeta.
  unfold re_anchored. rewrite chomp_get_text_strip, orb_false_r.
  set (text := get_text_strip p).
  destruct (truthy text) eqn:Et; cbn [negb orb].
  2:{ right. split; [|reflexivity]. apply truthy_false in Et. tauto. }
  destruct (contains (lit "TIKTOK") (upper unicode_upper text)) eqn:E1;
    cbn [negb orb]; [noise_word E1|].
  destruct (contains (lit "INSTAGRAM") (upper unicode_upper text)) eqn:E2;
    cbn [negb orb]; [noise_word E2|].
  destruct (contains (lit "FOLLOWERS") (upper unicode_upper text)) eqn:E3;
    cbn [negb orb]; [noise_word E3|].
  destruct (contains (lit "CONTACT") (upper unicode_upper text)) eqn:E4;
    cbn [negb orb]; [noise_word E4|].
  destruct (fullmatch number_re text) eqn:E5.
  - right. split; [|reflexivity]. intros (_ & _ & H). apply H.
    now apply number_re_shape, fullmatch_lang.
  - left. split; [|reflexivity]. repeat split.
    + now apply truthy_true.
    + intros w [<- | [<- | [<- | [<- | []]]]]; assumption.
    + intros H. apply number_re_shape, fullmatch_lang in H.
      unfold number_re in E5. congruence.
Qed.

Lemma kept_keep_paragraph (ps : list node) :
  kept (survives unicode_upper) (map get_text_strip ps)
    (flat_map (keep_paragraph unicode_upper) ps).
Proof.
  induction ps as [|p ps IH]; simpl; [constructor|].
  destruct (keep_paragraph_survives p) as [[H ->] | [H ->]].
  - now apply kept_keep.
  - now apply kept_drop.
Qed.

Lemma flat_map_nested {A B C : Type} (f : A -> list B) (g : B -> list C)
    (l : list A) :
  flat_map (fun a => flat_map g (f a)) l = flat_map g (flat_map f l).
Proof.
  induction l as [|a l IH]; simpl; [reflexivity|].
  now rewrite flat_map_app, IH.
Qed.

Lemma kept_In (P : str -> Prop) (l k : list str) (t : str) :
  kept P l k -> In t k -> P t.
Proof.
  induction 1 as [|x l k Hx _ IH|x l k _ _ IH]; simpl; intros Hin.
  - contradiction.
  - destruct Hin as [<- | Hin]; [exact Hx | now apply IH].
  - now apply IH.
Qed.

Lemma startswith_app (w s : str) : startswith w (w ++ s) = true.
Proof.
  induction w as [|c w IH]; simpl; [reflexivity|].
  now rewrite N.eqb_refl, IH.
Qed.

Lemma contains_app (w pre post : str) : contains w (pre ++ w ++ post) = true.
Proof.
  induction pre as [|c pre IH]; simpl.
  - destruct (w ++ post) eqn:E; simpl; rewrite <- E, startswith_app;
      reflexivity.
  - rewrite IH. apply orb_true_r.
Qed.

Lemma upper_app (a b : str) :
  upper unicode_upper (a ++ b) = upper unicode_upper a ++ upper unicode_upper b.
Proof. unfold upper. apply flat_map_app. Qed.

Lemma ascii_upper_ascii (c : N) :
  is_ascii (ascii_upper c) = true -> is_ascii c = true.
Proof.
  unfold is_ascii, ascii_upper.
  destruct (N.leb_spec 97 c), (N.leb_spec c 122); simpl; try tauto.
  intros _. apply N.ltb_lt. lia.
Qed.

Lemma upper_any_case (w W : str) :
  forallb is_ascii W = true -> map ascii_upper w = W ->
  upper unicode_upper w = W.
Proof.
  revert W. induction w as [|c w IH]; intros W HW E; simpl in E; subst W;
    [reflexivity|].
  simpl in HW. apply andb_true_iff in HW as [Hc Hw].
  unfold upper. simpl. rewrite (ascii_upper_ascii c Hc). simpl. f_equal.
  now apply IH.
Qed.

Lemma kept_incl (P : str -> Prop) (l k : list str) (t : str) :
  kept P l k -> In t k -> In t l.
Proof.
  induction 1 as [|x l k _ _ IH|x l k _ _ IH]; simpl; intros Hin.
  - contradiction.
  - destruct Hin as [<- | Hin]; [now left | right; now apply IH].
  - right. now apply IH.
Qed.

Lemma lstrip_app_last (x : str) (c : N) :
  isspace c = false -> lstrip (x ++ [c]) = lstrip x ++ [c].
Proof.
  intros Hc. induction x as [|a x IH]; simpl.
  - now rewrite Hc.
  - now destruct (isspace a).
Qed.

Lemma strip_first (s : str) :
  strip s = [] \/ exists c r, strip s = c :: r /\ isspace c = false.
Proof.
  unfold strip, rstrip.
  destruct (lstrip_head s) as [-> | (c & r & -> & Hc)]; [now left | right].
  exists c, (rev (lstrip (rev r))). split; [|exact Hc].
  cbn [rev]. rewrite lstrip_app_last by exact Hc.
  now rewrite rev_app_distr.
Qed.

Lemma concat_first (l : list str) :
  (forall x, In x l -> exists c r, x = c :: r /\ isspace c = false) ->
  concat l = [] \/ exists c r, concat l = c :: r /\ isspace c = false.
Proof.
  destruct l as [|x l]; intros H; [now left | right].
  destruct (H x (or_introl eq_refl)) as (c & r & -> & Hc).
  now exists c, (r ++ concat l).
Qed.

Lemma get_text_strip_first (n : node) :
  get_text_strip n = [] \/
  exists c r, get_text_strip n = c :: r /\ isspace c = false.
Proof.
  unfold get_text_strip. apply concat_first.
  intros x Hx. unfold stripped_strings in Hx.
  apply in_flat_map in Hx as (d & _ & Hx).
  destruct (read_by n d) as [s|]; [|contradiction].
  destruct (truthy (strip s)) eqn:E; [|contradiction].
  destruct Hx as [<- | []].
  destruct (strip_first s) as [H | H]; [|exact H].
  rewrite H in E. discriminate.
Qed.

(** The text of a tag is already stripped. *)
Lemma strip_get_text_strip (n : node) :
  strip (get_text_strip n) = get_text_strip n.
Proof.
  destruct (get_text_strip_first n) as [E | (c & r & E & Hc)];
    [now rewrite E|].
  destruct (get_text_strip_last n) as [E' | (r' & c' & E' & Hc')];
    [now rewrite E'|].
  unfold strip. replace (lstrip (get_text_strip n)) with (get_text_strip n)
    by (rewrite E; simpl; now rewrite Hc).
  unfold rstrip. rewrite E', rev_app_distr. simpl. rewrite Hc'. simpl.
  now rewrite rev_involutive.
Qed.

(** A follower count is a bare number. *)
Lemma followers_number_shape (d : N -> bool) (t : str) :
  followers_shape d t -> number_shape d t.
Proof.
  intros (body & frac & suffix & -> & Hb1 & Hb2 & Hf & Hs).
  exists (body ++ frac), suffix. rewrite <- app_assoc.
  repeat split; [|rewrite forallb_app; apply andb_true_iff; split|exact Hs].
  - destruct body; [congruence | discriminate].
  - rewrite forallb_forall in Hb2. apply forallb_forall. intros c Hc.
    now rewrite (Hb2 c Hc).
  - destruct Hf as [-> | (ds & -> & _ & Hd)]; [reflexivity|].
    rewrite forallb_forall in Hd. apply forallb_forall.
    intros c [<- | Hc]; [apply orb_true_r|].
    now rewrite (Hd c Hc).
Qed.

Lemma join_separated (sep : str) (parts : list str) :
  join sep parts = separated sep parts.
Proof.
  induction parts as [|p parts IH]; [reflexivity|].
  destruct parts as [|q parts].
  - cbn [join separated flat_map]. now rewrite app_nil_r.
  - change (join sep (p :: q :: parts)) with (p ++ sep ++ join sep (q :: parts)).
    rewrite IH. cbn [separated flat_map]. now rewrite <- app_assoc.
Qed.

(** C3, as amended: the text of a paragraph is what [get_text(strip=True)]
    gives, the strings below it each trimmed and put together without a
    separator, which for a paragraph that holds one string is its trimmed
    text.  The paragraphs of the biography are these texts for the content
    containers, in document order, without those that are empty, that
    contain TIKTOK, INSTAGRAM, FOLLOWERS or CONTACT once put in upper case,
    or that are a bare number; the biography is the first five of them (all
    of them when there are fewer) with one space between two neighbours.
    No kept paragraph is a follower count for the recognizer, and a text
    with the letters of "followers" in any mix of cases is never among
    them. *)
Theorem bio_first_five_survivors (soup : node) :
  kept (survives unicode_upper) (paragraph_texts soup)
    (paragraphs unicode_upper soup) /\
  (exists first rest : list str,
     paragraphs unicode_upper soup = first ++ rest /\
     length first = Nat.min 5 (length (paragraphs unicode_upper soup)) /\
     bio_text unicode_upper soup = separated [32] first) /\
  (forall t, In t (paragraphs unicode_upper soup) -> clean_followers t = []) /\
  (forall pre w post : str,
     map ascii_upper w = lit "FOLLOWERS" ->
     ~ In (pre ++ w ++ post) (paragraphs unicode_upper soup)) /\
  (forall (at_ : gmap str str) (s : str),
     get_text_strip (Tag (lit "p") at_ [Text s]) = strip s /\
     get_text_strip (Tag (lit "p") at_ [Text s]) =
       strip (get_text (Tag (lit "p") at_ [Text s]))).
Proof.
  assert (K : kept (survives unicode_upper) (paragraph_texts soup)
                (paragraphs unicode_upper soup)).
  { unfold paragraphs, paragraph_texts. rewrite flat_map_nested.
    apply kept_keep_paragraph. }
  split; [exact K|]. split; [|split; [|split]].
  - exists (take 5 (paragraphs unicode_upper soup)),
      (drop 5 (paragraphs unicode_upper soup)).
    split; [now rewrite take_drop|]. split; [apply length_take|].
    unfold bio_text. apply join_separated.
  - intros t Hin.
    pose proof (kept_In _ _ _ _ K Hin) as (_ & _ & Hn).
    apply (kept_incl _ _ _ _ K), in_map_iff in Hin as (p & <- & _).
    rewrite clean_followers_accepts, strip_get_text_strip.
    destruct (fullmatch followers_re (get_text_strip p)) eqn:E;
      [|reflexivity].
    exfalso. apply Hn, followers_number_shape.
    now apply followers_re_shape, fullmatch_lang.
  - intros pre w post Hw Hin.
    apply (kept_In _ _ _ _ K) in Hin as (_ & H & _).
    specialize (H (lit "FOLLOWERS")).
    rewrite !upper_app in H.
    rewrite (upper_any_case w (lit "FOLLOWERS") eq_refl Hw) in H.
    rewrite contains_app in H. discriminate H.
    cbn [noise_words In]. tauto.
  - intros at_ s.
    assert (E : get_text_strip (Tag (lit "p") at_ [Text s]) = strip s).
    { unfold get_text_strip, stripped_strings.
      change (descendants (Tag (lit "p") at_ [Text s])) with [Text s].
      cbn [flat_map].
      change (read_by (Tag (lit "p") at_ [Text s]) (Text s)) with (Some s).
      cbn iota. destruct (truthy (strip s)) eqn:Et.
      - cbn [app concat]. now rewrite app_nil_r.
      - apply truthy_false in Et. now rewrite Et. }
    split; [exact E|]. rewrite E. unfold get_text.
    change (descendants (Tag (lit "p") at_ [Text s])) with [Text s].
    cbn [flat_map].
    change (read_by (Tag (lit "p") at_ [Text s]) (Text s)) with (Some s).
    cbn iota. now rewrite app_nil_r.
Qed.

End Biography.

(** C3, as the specification states it with the trimmed text of the
    paragraph, fails: the paragraph [12 <b>k</b>] has the trimmed text
    "12 k", which is not empty, holds none of the four words and is not a
    bare number, and yet the paragraph is dropped, because the text the code
    tests is "12k". *)
Lemma bio_tests_glued_strings :
  strip (get_text split_number) = lit "12 k" /\
  survives (fun c => [c]) (strip (get_text split_number)) /\
  get_text_strip split_number = lit "12k" /\
  paragraphs (fun c => [c]) sample_split_number = [] /\
  bio_text (fun c => [c]) sample_split_number = [].
Proof.
  split; [reflexivity|]. split; [|repeat split; reflexivity].
  change (strip (get_text split_number)) with (lit "12 k").
  split; [discriminate|]. split.
  - intros w Hw. cbn [noise_words In] in Hw.
    destruct Hw as [<- | [<- | [<- | [<- | []]]]]; reflexivity.
  - intros H. apply number_re_shape, fullmatch_lang in H.
    vm_compute in H. discriminate.
Qed.

Lemma bio_first_five_survivors_witness :
  let t := lit "Her " ++ lit "followers" ++ lit " love her." in
  In t (paragraph_texts sample_profile) /\
  ~ In t (paragraphs (fun c => [c]) sample_profile).
Proof.
  cbv zeta. split; [vm_compute; tauto|].
  apply (proj1 (proj2 (proj2 (proj2
    (bio_first_five_survivors (fun c => [c]) sample_profile))))).
  reflexivity.
Defined.

(** ** The SQL generators *)

(** C4: the category is "Influencer" unless the source URL contains one of
    the words sports, beauty, fashion, food, lifestyle, compared case by
    case; the first of them in this order that it contains gives the
    category, so a URL with sports is "Sports" also when it contains beauty,
    and the category is always one of the six. *)
Theorem category_first_match (source_url : str) :
  GenerateSql.category_of source_url = first_category source_url /\
  GenerateSqlLines.category_of source_url = first_category source_url /\
  In (first_category source_url)
     [ lit "Influencer"; lit "Sports"; lit "Beauty"; lit "Fashion";
       lit "Food"; lit "Lifestyle" ] /\
  (contains (lit "sports") source_url = true ->
   contains (lit "beauty") source_url = true ->
   first_category source_url = lit "Sports" /\
   first_category source_url <> lit "Beauty") /\
  first_category (lit "/talent/Sports-BEAUTY") = lit "Influencer".
Proof.
  unfold GenerateSql.category_of, GenerateSqlLines.category_of,
    first_category, category_rules.
  cbn [List.find fst snd].
  destruct (contains (lit "sports") source_url),
    (contains (lit "beauty") source_url),
    (contains (lit "fashion") source_url),
    (contains (lit "food") source_url),
    (contains (lit "lifestyle") source_url);
    (repeat split; try reflexivity; try discriminate;
     try (cbn [In]; tauto)).
Qed.

Lemma category_first_match_witness :
  let url := lit "https://example.com/talent/beauty-and-sports" in
  GenerateSql.category_of url = lit "Sports" /\
  first_category url <> lit "Beauty".
Proof.
  cbv zeta.
  destruct (category_first_match
              (lit "https://example.com/talent/beauty-and-sports"))
    as (E & _ & _ & H & _).
  rewrite E. apply H; reflexivity.
Defined.

Lemma replace_quotes_escape (s : str) :
  replace quote (quote ++ quote) s = escape s.
Proof.
  change (replace_from [39] [39; 39] O s = escape s).
  induction s as [|c s IH]; [reflexivity|].
  cbn [replace_from startswith escape flat_map length Nat.pred].
  rewrite andb_true_r, (N.eqb_sym 39 c).
  destruct (c =? 39) eqn:E.
  - apply N.eqb_eq in E as ->. cbn [app]. now rewrite IH.
  - cbn [app]. now rewrite IH.
Qed.

Lemma val_str_same (row : gmap str (option str)) :
  GenerateSql.val_str row = GenerateSqlLines.val_str row.
Proof. reflexivity. Qed.

Lemma val_str_full (row : gmap str (option str))
    (name page image bio ig igf tt ttf : str) :
  row !! lit "Name" = Some (Some name) ->
  row !! lit "Page URL" = Some (Some page) ->
  row !! lit "Image URL" = Some (Some image) ->
  row !! lit "Bio" = Some (Some bio) ->
  row !! lit "Instagram" = Some (Some ig) ->
  row !! lit "Instagram Followers" = Some (Some igf) ->
  row !! lit "TikTok" = Some (Some tt) ->
  row !! lit "TikTok Followers" = Some (Some ttf) ->
  GenerateSql.val_str row =
  Ok (tuple_text GenerateSql.user_id (escape name)
        (GenerateSql.category_of (escape page)) (lit "active") (escape image)
        (escape ig) (escape igf) (escape tt) (escape ttf) (escape page)
        (escape bio)).
Proof.
  intros H1 H2 H3 H4 H5 H6 H7 H8.
  unfold GenerateSql.val_str, getitem.
  rewrite H1, H2, H3, H4, H5, H6, H7, H8.
  cbn [bind replace_quotes]. rewrite !replace_quotes_escape. reflexivity.
Qed.

Lemma escape_count (s : str) :
  count_occ N.eq_dec (escape s) 39 = (2 * count_occ N.eq_dec s 39%N)%nat.
Proof.
  induction s as [|c s IH]; [reflexivity|].
  cbn [escape flat_map]. fold (escape s).
  destruct (N.eqb_spec c 39) as [-> | Hc].
  - cbn [app]. rewrite !count_occ_cons_eq by reflexivity. rewrite IH. lia.
  - cbn [app]. rewrite !count_occ_cons_neq by assumption. exact IH.
Qed.

Lemma escape_others (s : str) :
  List.filter (fun c => negb (c =? 39)) (escape s) =
  List.filter (fun c => negb (c =? 39)) s.
Proof.
  induction s as [|c s IH]; [reflexivity|].
  cbn [escape flat_map]. fold (escape s).
  destruct (N.eqb_spec c 39) as [-> | Hc].
  - cbn [app List.filter N.eqb Pos.eqb negb]. exact IH.
  - cbn [app List.filter]. destruct (N.eqb_spec c 39); [contradiction|].
    cbn [negb]. now rewrite IH.
Qed.

Lemma collect_tuples (values : list str) (rows : list (gmap str (option str))) :
  GenerateSql.collect values rows =
  (vs <- tuples GenerateSql.val_str rows ;; Ok (values ++ vs)).
Proof.
  revert values. induction rows as [|row rows IH]; intros values.
  - cbn [GenerateSql.collect tuples bind]. now rewrite app_nil_r.
  - cbn [GenerateSql.collect tuples].
    destruct (GenerateSql.val_str row) as [v|e]; cbn [bind]; [|reflexivity].
    rewrite IH. destruct (tuples GenerateSql.val_str rows) as [vs|e];
      cbn [bind]; [|reflexivity].
    now rewrite <- app_assoc.
Qed.

Lemma loop_tuples (out : list str) (rows : list (gmap str (option str))) :
  match tuples GenerateSqlLines.val_str rows with
  | Ok vs =>
      GenerateSqlLines.loop out rows =
      Run (out ++ map GenerateSqlLines.sql_of vs) None
  | Raise e =>
      raised (GenerateSqlLines.loop out rows) = Some e /\
      exists done, printed (GenerateSqlLines.loop out rows) = out ++ done
  end.
Proof.
  revert out. induction rows as [|row rows IH]; intros out.
  - cbn [GenerateSqlLines.loop tuples map]. now rewrite app_nil_r.
  - cbn [GenerateSqlLines.loop tuples].
    destruct (GenerateSqlLines.val_str row) as [v|e]; cbn [bind].
    + specialize (IH (out ++ [GenerateSqlLines.sql_of v])).
      destruct (tuples GenerateSqlLines.val_str rows) as [vs|e]; cbn [bind].
      * rewrite IH. cbn [map]. now rewrite <- app_assoc.
      * destruct IH as [IH1 (done & IH2)]. split; [exact IH1|].
        exists (GenerateSqlLines.sql_of v :: done).
        now rewrite IH2, <- app_assoc.
    + split; [reflexivity|]. exists []. cbn [printed]. now rewrite app_nil_r.
Qed.

Lemma category_of_first (source_url : str) :
  GenerateSql.category_of source_url = first_category source_url.
Proof.
  unfold GenerateSql.category_of, first_category, category_rules.
  cbn [List.find fst snd].
  now destruct (contains (lit "sports") source_url),
    (contains (lit "beauty") source_url),
    (contains (lit "fashion") source_url),
    (contains (lit "food") source_url),
    (contains (lit "lifestyle") source_url).
Qed.

Lemma tuples_app_fails (f : gmap str (option str) -> result str)
    (good rest : list (gmap str (option str))) (bad : gmap str (option str))
    (vs : list str) (e : exn) :
  tuples f good = Ok vs -> f bad = Raise e ->
  tuples f (good ++ bad :: rest) = Raise e.
Proof.
  revert vs. induction good as [|row good IH]; intros vs Hg Hb.
  - cbn [app tuples]. now rewrite Hb.
  - cbn [app tuples] in *. destruct (f row) as [v|e']; [|discriminate].
    cbn [bind] in *.
    destruct (tuples f good) as [vs'|e'] eqn:Eg; [|discriminate].
    now rewrite (IH vs' eq_refl Hb).
Qed.

Lemma loop_app_fails (out : list str)
    (good rest : list (gmap str (option str))) (bad : gmap str (option str))
    (vs : list str) (e : exn) :
  tuples GenerateSqlLines.val_str good = Ok vs ->
  GenerateSqlLines.val_str bad = Raise e ->
  GenerateSqlLines.loop out (good ++ bad :: rest) =
  Run (out ++ map GenerateSqlLines.sql_of vs) (Some e).
Proof.
  revert out vs. induction good as [|row good IH]; intros out vs Hg Hb.
  - injection Hg as <-. cbn [app GenerateSqlLines.loop map].
    now rewrite Hb, app_nil_r.
  - cbn [app GenerateSqlLines.loop tuples] in *.
    destruct (GenerateSqlLines.val_str row) as [v|e']; [|discriminate].
    cbn [bind] in Hg.
    destruct (tuples GenerateSqlLines.val_str good) as [vs'|e'] eqn:Eg;
      [|discriminate].
    injection Hg as <-. rewrite (IH _ vs' eq_refl Hb). cbn [map].
    now rewrite <- app_assoc.
Qed.

Lemma tuples_Forall2 (f : gmap str (option str) -> result str)
    (rows : list (gmap str (option str))) (vs : list str) :
  tuples f rows = Ok vs -> Forall2 (fun row v => f row = Ok v) rows vs.
Proof.
  revert vs. induction rows as [|row rows IH]; intros vs H.
  - injection H as <-. constructor.
  - cbn [tuples] in H. destruct (f row) as [v|e] eqn:Ev; [|discriminate].
    cbn [bind] in H. destruct (tuples f rows) as [vs'|e]; [|discriminate].
    injection H as <-. constructor; [exact Ev | now apply IH].
Qed.

Lemma tuples_fails_split (f : gmap str (option str) -> result str)
    (rows : list (gmap str (option str))) (e : exn) :
  tuples f rows = Raise e ->
  exists good bad rest vs,
    rows = good ++ bad :: rest /\ tuples f good = Ok vs /\ f bad = Raise e.
Proof.
  induction rows as [|row rows IH]; intros H; [discriminate|].
  cbn [tuples] in H. destruct (f row) as [v|e'] eqn:Ev.
  - cbn [bind] in H.
    destruct (tuples f rows) as [vs'|e'] eqn:Et; [discriminate|].
    injection H as ->.
    destruct (IH eq_refl) as (good & bad & rest & vs & -> & Hg & Hb).
    exists (row :: good), bad, rest, (v :: vs). repeat split; try assumption.
    cbn [tuples]. now rewrite Ev, Hg.
  - cbn [bind] in H. injection H as ->.
    now exists [], row, rows, [].
Qed.

Lemma sql_template_insert_into (v : str) :
  GenerateSql.sql_template (join (lit ", ") GenerateSql.columns) v =
  insert_into ++ v ++ lit ";".
Proof. reflexivity. Qed.

Lemma sql_of_insert_into (v : str) :
  GenerateSqlLines.sql_of v = insert_into ++ v ++ lit ";".
Proof. reflexivity. Qed.

(** C5, as amended: both generators print the deletion statement first and
    build the value tuple of a row by the same rules.  When every row has
    the eight columns with a field in each, they render the same tuples,
    one for each row and in the order of the rows: one generator as a
    single insertion whose tuples have a comma and a line feed between two
    neighbours, the other as one insertion per tuple with the same head.
    When a row raises, both end with the same exception, the first having
    printed the deletion statement only and the second also the insertions
    of the rows before the failing one. *)
Theorem rendering_modes_agree (rows : list (gmap str (option str))) :
  (forall row, GenerateSql.val_str row = GenerateSqlLines.val_str row) /\
  head (printed (GenerateSql.main rows)) = Some delete_statement /\
  head (printed (GenerateSqlLines.main rows)) = Some delete_statement /\
  raised (GenerateSql.main rows) = raised (GenerateSqlLines.main rows) /\
  match tuples GenerateSql.val_str rows with
  | Ok values =>
      Forall2 (fun row v => GenerateSql.val_str row = Ok v) rows values /\
      GenerateSql.main rows =
        Run [ delete_statement;
              insert_into ++ separated [44; 10] values ++ lit ";" ] None /\
      GenerateSqlLines.main rows =
        Run (delete_statement
               :: map (fun v => insert_into ++ v ++ lit ";") values) None
  | Raise e =>
      exists good bad rest vs,
        rows = good ++ bad :: rest /\
        Forall2 (fun row v => GenerateSql.val_str row = Ok v) good vs /\
        GenerateSql.val_str bad = Raise e /\
        GenerateSql.main rows = Run [delete_statement] (Some e) /\
        GenerateSqlLines.main rows =
          Run (delete_statement
                 :: map (fun v => insert_into ++ v ++ lit ";") vs) (Some e)
  end.
Proof.
  assert (Hsql : forall vs,
            map GenerateSqlLines.sql_of vs =
            map (fun v => insert_into ++ v ++ lit ";") vs).
  { intros vs. apply map_ext. intros v. apply sql_of_insert_into. }
  assert (Hmulti : forall e, tuples GenerateSql.val_str rows = Raise e ->
            GenerateSql.main rows = Run [delete_statement] (Some e)).
  { intros e He. unfold GenerateSql.main. now rewrite collect_tuples, He. }
  destruct (tuples GenerateSql.val_str rows) as [values|e] eqn:E.
  - assert (H1 : GenerateSql.main rows =
                 Run [ delete_statement;
                       insert_into ++ separated [44; 10] values ++ lit ";" ]
                   None).
    { unfold GenerateSql.main. rewrite collect_tuples, E. cbn [bind app].
      now rewrite sql_template_insert_into, join_separated. }
    assert (H2 : GenerateSqlLines.main rows =
                 Run (delete_statement
                        :: map (fun v => insert_into ++ v ++ lit ";") values)
                   None).
    { pose proof (loop_tuples [delete_statement] rows) as L.
      change (tuples GenerateSqlLines.val_str rows)
        with (tuples GenerateSql.val_str rows) in L.
      rewrite E in L. unfold GenerateSqlLines.main. fold delete_statement.
      now rewrite L, Hsql. }
    rewrite H1, H2. cbn [printed raised head].
    repeat split. now apply tuples_Forall2.
  - destruct (tuples_fails_split _ _ _ E)
      as (good & bad & rest & vs & -> & Hg & Hb).
    assert (H2 : GenerateSqlLines.main (good ++ bad :: rest) =
                 Run (delete_statement
                        :: map (fun v => insert_into ++ v ++ lit ";") vs)
                   (Some e)).
    { unfold GenerateSqlLines.main.
      rewrite (loop_app_fails _ good rest bad vs e Hg Hb).
      fold delete_statement. now rewrite Hsql. }
    rewrite (Hmulti e eq_refl), H2. cbn [printed raised head].
    repeat split.
    exists good, bad, rest, vs. repeat split; try assumption.
    now apply tuples_Forall2.
Qed.

(** C5, as the specification states it for every sequence of rows, fails:
    when the line of the second row stops after the image URL, the
    statement-per-row generator has printed the tuple of the first row and
    the single-statement generator has printed no tuple at all. *)
Lemma rendering_modes_differ_on_short_row :
  GenerateSql.main [jane_row; row_cut] =
    Run [delete_statement] (Some AttributeError) /\
  GenerateSqlLines.main [jane_row; row_cut] =
    Run [ delete_statement;
          lit "INSERT INTO public.talents (user_id, name, category, status, avatar_url, instagram_handle, followers, tiktok_handle, tiktok_followers, source_url, bio) VALUES ('eff94470-6759-4490-9c94-8277546e8ea9', 'Jane Doe', 'Sports', 'active', '//images.example.com/jane.jpg', 'https://instagram.com/janedoe', '12.3k', '', '', 'https://example.com/talent/jane-doe-sports-fan', 'Runner and coach.');" ]
      (Some AttributeError).
Proof. split; reflexivity. Qed.

(** C6: each of the eight fields of a row enters its literal with every
    single quote doubled and nothing else changed, the doubling being done
    once: the name O'Brien is rendered with two quotes, not with four. *)
Theorem fields_escaped_once (row : gmap str (option str))
    (name page image bio ig igf tt ttf : str) :
  row !! lit "Name" = Some (Some name) ->
  row !! lit "Page URL" = Some (Some page) ->
  row !! lit "Image URL" = Some (Some image) ->
  row !! lit "Bio" = Some (Some bio) ->
  row !! lit "Instagram" = Some (Some ig) ->
  row !! lit "Instagram Followers" = Some (Some igf) ->
  row !! lit "TikTok" = Some (Some tt) ->
  row !! lit "TikTok Followers" = Some (Some ttf) ->
  let tuple :=
    tuple_text GenerateSql.user_id (escape name)
      (first_category (escape page)) (lit "active") (escape image)
      (escape ig) (escape igf) (escape tt) (escape ttf) (escape page)
      (escape bio) in
  GenerateSql.val_str row = Ok tuple /\
  GenerateSqlLines.val_str row = Ok tuple /\
  (forall s : str,
     count_occ N.eq_dec (escape s) 39 = (2 * count_occ N.eq_dec s 39%N)%nat /\
     List.filter (fun c => negb (c =? 39)) (escape s) =
     List.filter (fun c => negb (c =? 39)) s) /\
  escape (lit "O'Brien") = lit "O''Brien" /\
  escape (lit "O'Brien") <> lit "O''''Brien".
Proof.
  intros H1 H2 H3 H4 H5 H6 H7 H8. cbv zeta.
  rewrite <- category_of_first.
  repeat split.
  - now apply val_str_full.
  - rewrite <- val_str_same. now apply val_str_full.
  - apply escape_count.
  - apply escape_others.
  - discriminate.
Qed.

Lemma fields_escaped_once_witness :
  GenerateSql.val_str brien_row =
  Ok (lit "('eff94470-6759-4490-9c94-8277546e8ea9', 'Conan O''Brien', 'Influencer', 'active', '', '', '', '', '', 'https://example.com/talent/conan', 'It''s him.')").
Proof.
  exact (proj1 (fields_escaped_once brien_row
    (lit "Conan O'Brien") (lit "https://example.com/talent/conan")
    [] (lit "It's him.") [] [] [] []
    eq_refl eq_refl eq_refl eq_refl eq_refl eq_refl eq_refl eq_refl)).
Defined.

(** C8: the row of Jane Doe gives a tuple with the name 'Jane Doe', the
    category 'Sports', the handle 'https://instagram.com/janedoe' and the
    count '12.3k' in the columns name, category, instagram_handle and
    followers, whatever its other four fields hold. *)
Theorem jane_doe_tuple (row : gmap str (option str))
    (image bio tt ttf : str) :
  row !! lit "Name" = Some (Some (lit "Jane Doe")) ->
  row !! lit "Page URL" =
    Some (Some (lit "https://example.com/talent/jane-doe-sports-fan")) ->
  row !! lit "Instagram" = Some (Some (lit "https://instagram.com/janedoe")) ->
  row !! lit "Instagram Followers" = Some (Some (lit "12.3k")) ->
  row !! lit "Image URL" = Some (Some image) ->
  row !! lit "Bio" = Some (Some bio) ->
  row !! lit "TikTok" = Some (Some tt) ->
  row !! lit "TikTok Followers" = Some (Some ttf) ->
  GenerateSql.val_str row =
  Ok (lit "('eff94470-6759-4490-9c94-8277546e8ea9', 'Jane Doe', 'Sports', 'active', '"
      ++ escape image
      ++ lit "', 'https://instagram.com/janedoe', '12.3k', '"
      ++ escape tt ++ lit "', '" ++ escape ttf
      ++ lit "', 'https://example.com/talent/jane-doe-sports-fan', '"
      ++ escape bio ++ lit "')").
Proof.
  intros H1 H2 H3 H4 H5 H6 H7 H8.
  rewrite (val_str_full row _ _ _ _ _ _ _ _ H1 H2 H5 H6 H3 H4 H7 H8).
  reflexivity.
Qed.

Lemma jane_doe_tuple_witness :
  GenerateSql.val_str jane_row =
  Ok (lit "('eff94470-6759-4490-9c94-8277546e8ea9', 'Jane Doe', 'Sports', 'active', '//images.example.com/jane.jpg', 'https://instagram.com/janedoe', '12.3k', '', '', 'https://example.com/talent/jane-doe-sports-fan', 'Runner and coach.')").
Proof.
  exact (jane_doe_tuple jane_row (lit "//images.example.com/jane.jpg")
           (lit "Runner and coach.") [] []
           eq_refl eq_refl eq_refl eq_refl eq_refl eq_refl eq_refl eq_refl).
Defined.

(** ** The listing *)

Lemma dict_get_set (d : dict) (k v k' : str) :
  dict_get (dict_set d k v) k' =
  if str_eqb k' k then Some v else dict_get d k'.
Proof.
  induction d as [|[k0 v0] d IH]; cbn [dict_set dict_get]; [reflexivity|].
  destruct (str_eqb k k0) eqn:E; cbn [dict_get].
  - apply str_eqb_eq in E as ->. now destruct (str_eqb k' k0).
  - rewrite IH. destruct (str_eqb k' k0) eqn:E0; [|reflexivity].
    apply str_eqb_eq in E0 as ->.
    destruct (str_eqb k0 k) eqn:E1; [|reflexivity].
    apply str_eqb_eq in E1 as ->.
    assert (str_eqb k k = true) by now apply str_eqb_eq.
    congruence.
Qed.

Section ListingFacts.

Variable urljoin : str -> str -> str.

Lemma collect_from_candidate (links : list element) (d : dict)
    (url img_src : str) :
  dict_get (fold_left (listing_step urljoin) links d) url = Some img_src ->
  dict_get d url = Some img_src \/
  exists link, In link links /\ candidate urljoin link = Some (url, img_src).
Proof.
  revert d. induction links as [|l links IH]; intros d H; [now left|].
  cbn [fold_left] in H. apply IH in H as [H | (link & Hin & Hc)].
  - unfold listing_step in H.
    destruct (candidate urljoin l) as [[u i]|] eqn:E; [|now left].
    rewrite dict_get_set in H.
    destruct (str_eqb url u) eqn:Eu; [|now left].
    apply str_eqb_eq in Eu as ->. injection H as ->.
    right. exists l. split; [now left | exact E].
  - right. exists link. split; [now right | exact Hc].
Qed.

Lemma candidate_inv (link : element) (full_url img_src : str) :
  candidate urljoin link = Some (full_url, img_src) ->
  full_url = urljoin base_url (href_of link) /\
  existsb (str_eqb (replace base_url [] full_url)) excluded_paths = false /\
  exists img raw,
    find (lit "img") (el_node link) = Some img /\
    image_source img raw /\ img_src = secure raw.
Proof.
  unfold candidate. cbv zeta.
  destruct (negb (startswith base_url _)); [discriminate|].
  destruct (existsb _ excluded_paths) eqn:Ex; [discriminate|].
  destruct (contains (lit "mailto:") _ || contains (lit "tel:") _);
    [discriminate|].
  destruct (is_nav_footer link); [discriminate|].
  destruct (find (lit "img") (el_node link)) as [img|]; [|discriminate].
  destruct (py_or _ _) as [raw|] eqn:Eo; [|discriminate].
  destruct (truthy raw) eqn:Er; [|discriminate].
  intros [= <- <-]. split; [reflexivity|]. split; [exact Ex|].
  exists img, raw. split; [reflexivity|]. split; [|reflexivity].
  split; [now apply truthy_true|].
  unfold py_or in Eo.
  destruct (get img (lit "data-src")) as [d|] eqn:Ed.
  - destruct (truthy d) eqn:Etd.
    + left. exact Eo.
    + right. apply truthy_false in Etd as ->. split; [now right | exact Eo].
  - right. split; [now left | exact Eo].
Qed.

(** C7: an anchor that resolves to the path /influencers-nz of the site
    gives no candidate, and neither does an anchor without an image below
    it, whatever its [href]; every entry of the listing comes from an anchor
    with an image, whose source is the value of [data-src] when it has one
    that is not empty and the value of [src] otherwise, with https: put
    before a source that starts with two slashes. *)
Theorem listing_requires_image (soup : node) :
  (forall link,
     urljoin base_url (href_of link) = main_list_url ->
     candidate urljoin link = None) /\
  (forall link,
     find (lit "img") (el_node link) = None -> candidate urljoin link = None) /\
  dict_get (collect_profiles urljoin soup) main_list_url = None /\
  (forall url img_src,
     dict_get (collect_profiles urljoin soup) url = Some img_src ->
     exists link img raw,
       In link (anchors soup) /\
       url = urljoin base_url (href_of link) /\
       find (lit "img") (el_node link) = Some img /\
       image_source img raw /\ img_src = secure raw).
Proof.
  assert (Hall : forall url img_src,
     dict_get (collect_profiles urljoin soup) url = Some img_src ->
     exists link, In link (anchors soup) /\
                  candidate urljoin link = Some (url, img_src)).
  { intros url img_src H. unfold collect_profiles in H.
    apply collect_from_candidate in H as [H | H]; [discriminate | exact H]. }
  repeat split.
  - intros link H. unfold candidate. rewrite H. reflexivity.
  - intros link H. unfold candidate. cbv zeta. rewrite H.
    now repeat match goal with
               | |- (if ?b then _ else _) = _ => destruct b
               end.
  - destruct (dict_get _ main_list_url) as [v|] eqn:E; [|reflexivity].
    apply Hall in E as (link & _ & E).
    apply candidate_inv in E as (_ & E & _).
    vm_compute in E. discriminate.
  - intros url img_src H.
    apply Hall in H as (link & Hin & H).
    apply candidate_inv in H as (-> & _ & img & raw & H1 & H2 & H3).
    now exists link, img, raw.
Qed.

End ListingFacts.

Lemma listing_requires_image_witness :
  collect_profiles urljoin_sample sample_listing =
    [ (lit "https://www.liquorice.co.nz/talent/jane-doe-sports-fan",
       lit "https://images.example.com/jane.jpg") ] /\
  exists link,
    In link (anchors sample_listing) /\
    href_of link = lit "/influencers-nz" /\
    candidate urljoin_sample link = None.
Proof.
  split; [vm_compute; reflexivity|].
  exists (nth 1 (anchors sample_listing) (Element (Text []) [] [])).
  split; [vm_compute; tauto|]. split; [vm_compute; reflexivity|].
  apply (proj1 (listing_requires_image urljoin_sample sample_listing)).
  vm_compute. reflexivity.
Defined.

(** ** Profiles without a heading *)

Section ProfileFacts.

Variable unicode_upper : N -> str.
Variable unicode_lower : str -> str.
Variable fetch : str -> fetched.

Lemma scrape_profiles_from (items : dict) (data : list record) :
  fold_left (scrape_step unicode_upper unicode_lower fetch) items data =
  data ++ flat_map (scrape_step unicode_upper unicode_lower fetch []) items.
Proof.
  revert data. induction items as [|[url image_url] items IH]; intros data.
  - cbn [fold_left flat_map]. now rewrite app_nil_r.
  - cbn [fold_left flat_map]. rewrite IH. unfold scrape_step.
    destruct (fetch url) as [|status_code soup].
    + reflexivity.
    + destruct (negb (status_code =? 200)%Z); [reflexivity|].
      cbn [app]. now rewrite <- app_assoc.
Qed.

(** C9: a profile page that is fetched with status 200 and has no [h1]
    gives a record all the same, appended to the records so far, with the
    name "Unknown" and the URL and the image of its candidate; so does the
    run over a listing that holds the candidate. *)
Theorem profile_without_heading (url image_url : str) (soup : node) :
  fetch url = Response 200 soup ->
  find (lit "h1") soup = None ->
  (forall data : list record,
     exists r,
       scrape_step unicode_upper unicode_lower fetch data (url, image_url)
         = data ++ [r] /\
       Name r = lit "Unknown" /\ Page_URL r = url /\ Image_URL r = image_url) /\
  (forall profiles_to_scrape : dict,
     In (url, image_url) profiles_to_scrape ->
     exists r,
       In r (scrape_profiles unicode_upper unicode_lower fetch
               profiles_to_scrape) /\
       Name r = lit "Unknown" /\ Page_URL r = url /\ Image_URL r = image_url).
Proof.
  intros Hf Hh.
  assert (Hstep : forall data,
    scrape_step unicode_upper unicode_lower fetch data (url, image_url) =
    data ++ [extract unicode_upper unicode_lower url image_url soup]).
  { intros data. unfold scrape_step. now rewrite Hf. }
  assert (Hname : Name (extract unicode_upper unicode_lower url image_url soup)
                  = lit "Unknown").
  { unfold extract, name_text. cbn [Name]. now rewrite Hh. }
  split.
  - intros data. eexists. split; [apply Hstep|]. now split.
  - intros profiles Hin. eexists. split; [|split; [exact Hname | now split]].
    unfold scrape_profiles. rewrite scrape_profiles_from. cbn [app].
    apply in_flat_map. exists (url, image_url). split; [exact Hin|].
    rewrite Hstep. now left.
Qed.

End ProfileFacts.

Lemma profile_without_heading_witness :
  exists r,
    scrape_profiles (fun c => [c]) id fetch_sample
      [ (lit "https://www.liquorice.co.nz/talent/gone", []);
        (lit "https://www.liquorice.co.nz/talent/jane-doe-sports-fan",
         lit "https://images.example.com/jane.jpg") ] = [r] /\
    Name r = lit "Unknown".
Proof.
  destruct (proj1 (profile_without_heading (fun c => [c]) id fetch_sample
    (lit "https://www.liquorice.co.nz/talent/jane-doe-sports-fan")
    (lit "https://images.example.com/jane.jpg") sample_no_heading
    eq_refl eq_refl) []) as (r & Hr & Hn & _).
  exists r. split; [|exact Hn].
  change [r] with ([] ++ [r]). rewrite <- Hr. vm_compute. reflexivity.
Defined.

(** * Further properties of the code *)

(** ** The listing: which anchors are taken *)

Lemma existsb_str_eqb (x : str) (l : list str) :
  existsb (str_eqb x) l = true <-> In x l.
Proof.
  rewrite existsb_exists. split.
  - intros (y & Hy & E). apply str_eqb_eq in E as ->. exact Hy.
  - intros H. exists x. split; [exact H | now apply str_eqb_eq].
Qed.

Lemma existsb_str_eqb_false (x : str) (l : list str) :
  existsb (str_eqb x) l = false <-> ~ In x l.
Proof.
  rewrite <- existsb_str_eqb. destruct (existsb (str_eqb x) l); split;
    congruence.
Qed.

Lemma is_nav_footer_landmark (link : element) :
  is_nav_footer link = true <-> exists p, In p (parents link) /\ landmark p.
Proof.
  unfold is_nav_footer, landmark. rewrite existsb_exists.
  split; intros (p & Hp & H); exists p; (split; [exact Hp|]).
  - apply orb_true_iff in H as [H | H].
    + left. destruct (name_of p) as [nm|]; [|discriminate].
      exists nm. split; [reflexivity | now apply existsb_str_eqb].
    + right. destruct (get p (lit "id")) as [i|]; [|discriminate].
      exists i. split; [reflexivity | now apply existsb_str_eqb].
  - apply orb_true_iff. destruct H as [(nm & -> & H) | (i & -> & H)].
    + left. now apply existsb_str_eqb.
    + right. now apply existsb_str_eqb.
Qed.

Lemma secure_not_relative (raw : str) :
  raw <> [] -> secure raw <> [] /\ startswith (lit "//") (secure raw) = false.
Proof.
  intros Hr. unfold secure.
  destruct (startswith (lit "//") raw) eqn:E.
  - split; [discriminate | reflexivity].
  - now split.
Qed.

Section ListingMore.

Variable urljoin : str -> str -> str.

(** X1: an anchor gives a candidate exactly when its resolved URL starts
    with the origin of the site, the URL without the origin is none of the
    six excluded paths, its [href] holds neither mailto: nor tel:, none of
    its ancestors is a header, footer or nav tag or has the id header,
    footer or mobileNav, and the first image below it has a source that is
    not empty; the candidate is then the resolved URL with that source. *)
Theorem candidate_exactly (link : element) (full_url img_src : str) :
  candidate urljoin link = Some (full_url, img_src) <->
  full_url = urljoin base_url (href_of link) /\
  startswith base_url full_url = true /\
  ~ In (replace base_url [] full_url) excluded_paths /\
  contains (lit "mailto:") (href_of link) = false /\
  contains (lit "tel:") (href_of link) = false /\
  (forall p, In p (parents link) -> ~ landmark p) /\
  exists img raw,
    find (lit "img") (el_node link) = Some img /\
    image_source img raw /\ img_src = secure raw.
Proof.
  split.
  - intros H. pose proof (candidate_inv urljoin _ _ _ H) as (E & Hx & Himg).
    revert H. unfold candidate. cbv zeta. rewrite <- E.
    destruct (startswith base_url full_url); [|discriminate].
    cbn [negb]. rewrite Hx.
    destruct (contains (lit "mailto:") (href_of link)); [discriminate|].
    destruct (contains (lit "tel:") (href_of link)); [discriminate|].
    cbn [orb].
    destruct (is_nav_footer link) eqn:En; [discriminate|]. intros _.
    repeat split; try assumption.
    + now apply existsb_str_eqb_false.
    + intros p Hp Hl.
      assert (is_nav_footer link = true)
        by (apply is_nav_footer_landmark; now exists p).
      congruence.
  - intros (-> & Hs & Hx & Hm & Ht & Hn & img & raw & Hf & (Hr & Hi) & ->).
    unfold candidate. cbv zeta. rewrite Hs. cbn [negb].
    apply existsb_str_eqb_false in Hx. rewrite Hx, Hm, Ht. cbn [orb].
    destruct (is_nav_footer link) eqn:En.
    { apply is_nav_footer_landmark in En as (p & Hp & Hl).
      now destruct (Hn p Hp). }
    rewrite Hf.
    assert (Ho : py_or (get img (lit "data-src")) (get img (lit "src"))
                 = Some raw).
    { unfold py_or. destruct Hi as [-> | [[-> | ->] ->]]; try reflexivity.
      apply truthy_true in Hr. now rewrite Hr. }
    rewrite Ho. apply truthy_true in Hr. rewrite Hr. reflexivity.
Qed.

(** X2: an anchor below a header, footer or nav tag, or below a tag whose
    id is header, footer or mobileNav, at any depth, gives no candidate. *)
Theorem candidate_not_in_landmark (link : element) (p : node) :
  In p (parents link) -> landmark p -> candidate urljoin link = None.
Proof.
  intros Hp Hl.
  assert (En : is_nav_footer link = true)
    by (apply is_nav_footer_landmark; now exists p).
  unfold candidate. cbv zeta. rewrite En.
  now repeat match goal with
             | |- (if ?b then _ else _) = _ => destruct b
             end.
Qed.

End ListingMore.

Lemma candidate_not_in_landmark_witness :
  exists link,
    nth_error (anchors sample_twice) 3 = Some link /\
    href_of link = lit "/talent/jane" /\
    candidate urljoin_sample link = None.
Proof.
  eexists. split; [vm_compute; reflexivity|]. split; [reflexivity|].
  apply (candidate_not_in_landmark urljoin_sample _ footer_block).
  - right. left. reflexivity.
  - right. exists (lit "footer"). split; [reflexivity|].
    right. left. reflexivity.
Defined.

(** ** The listing: the dictionary it builds *)

Lemma dict_set_keys (d : dict) (k v : str) :
  map fst (dict_set d k v) =
  if existsb (str_eqb k) (map fst d) then map fst d else map fst d ++ [k].
Proof.
  induction d as [|[k0 v0] d IH]; [reflexivity|].
  cbn [dict_set map fst existsb].
  destruct (str_eqb k k0); cbn [orb map fst]; [reflexivity|].
  rewrite IH. now destruct (existsb (str_eqb k) (map fst d)).
Qed.

Lemma dict_set_Forall (P : str * str -> Prop) (d : dict) (k v : str) :
  Forall P d -> P (k, v) -> Forall P (dict_set d k v).
Proof.
  intros Hd Hk. induction Hd as [|[k0 v0] d H0 Hd IH]; cbn [dict_set].
  - now repeat constructor.
  - destruct (str_eqb k k0) eqn:E.
    + apply str_eqb_eq in E as <-. now constructor.
    + now constructor.
Qed.

Lemma filter_and {A : Type} (f g : A -> bool) (l : list A) :
  List.filter (fun x => f x && g x) l = List.filter f (List.filter g l).
Proof.
  induction l as [|x l IH]; [reflexivity|].
  cbn [List.filter]. destruct (g x); cbn [List.filter].
  - rewrite andb_true_r. now rewrite IH.
  - rewrite andb_false_r. exact IH.
Qed.

Lemma uniq_NoDup (l : list str) : List.NoDup (uniq l).
Proof.
  induction l as [|x l IH]; cbn [uniq]; constructor.
  - intros H. apply filter_In in H as [_ H].
    assert (str_eqb x x = true) by now apply str_eqb_eq.
    rewrite H0 in H. discriminate.
  - now apply List.NoDup_filter.
Qed.

Lemma uniq_In (l : list str) (x : str) : In x (uniq l) <-> In x l.
Proof.
  induction l as [|y l IH]; [reflexivity|].
  cbn [uniq In]. rewrite filter_In, IH. split.
  - intros [H | [H _]]; auto.
  - intros [H | H]; [now left|].
    destruct (str_eqb x y) eqn:E.
    + left. apply str_eqb_eq in E. now symmetry.
    + right. now split.
Qed.

Section Dictionary.

Variable urljoin : str -> str -> str.

Lemma listing_keys (links : list element) (d : dict) :
  map fst (fold_left (listing_step urljoin) links d) =
  map fst d ++
  List.filter (fun u => negb (existsb (str_eqb u) (map fst d)))
    (uniq (map fst (candidates_of urljoin links))).
Proof.
  revert d. induction links as [|l links IH]; intros d.
  - cbn. now rewrite app_nil_r.
  - cbn [fold_left]. rewrite IH. unfold listing_step, candidates_of.
    cbn [flat_map]. fold (candidates_of urljoin links).
    destruct (candidate urljoin l) as [[u i]|]; [|reflexivity].
    cbn [app map fst uniq List.filter]. rewrite dict_set_keys.
    destruct (existsb (str_eqb u) (map fst d)) eqn:E; cbn [negb].
    + f_equal. rewrite <- filter_and. apply filter_ext. intros y.
      destruct (str_eqb y u) eqn:Ey; cbn [negb];
        [|now rewrite andb_true_r].
      apply str_eqb_eq in Ey as ->. now rewrite E.
    + rewrite <- app_assoc. cbn [app]. do 2 f_equal.
      rewrite <- filter_and. apply filter_ext. intros y.
      rewrite existsb_app. cbn [existsb]. rewrite orb_false_r, negb_orb.
      reflexivity.
Qed.


Lemma listing_Forall (P : str * str -> Prop) (links : list element) (d : dict) :
  (forall l c, In l links -> candidate urljoin l = Some c -> P c) ->
  Forall P d -> Forall P (fold_left (listing_step urljoin) links d).
Proof.
  revert d. induction links as [|l links IH]; intros d H Hd; [exact Hd|].
  cbn [fold_left]. apply IH; [intros l' c Hl'; apply H; now right|].
  unfold listing_step.
  destruct (candidate urljoin l) as [[u i]|] eqn:E; [|exact Hd].
  apply dict_set_Forall; [exact Hd|]. now apply (H l); [left|].
Qed.


Lemma collect_keys_uniq (soup : node) :
  map fst (collect_profiles urljoin soup) =
  uniq (map fst (listing_candidates urljoin soup)).
Proof.
  unfold collect_profiles, listing_candidates. rewrite listing_keys.
  cbn [map app existsb negb].
  apply forallb_filter_id, forallb_forall. reflexivity.
Qed.


Lemma candidate_wellformed (l : element) (c : str * str) :
  candidate urljoin l = Some c ->
  startswith base_url (fst c) = true /\
  snd c <> [] /\
  startswith (lit "//") (snd c) = false.
Proof.
  destruct c as [u i]. intros H. cbn [fst snd].
  pose proof (candidate_inv urljoin _ _ _ H)
    as (E & _ & img & raw & _ & (Hr & _) & ->).
  split; [|now apply secure_not_relative].
  revert H. unfold candidate. cbv zeta. rewrite <- E.
  now destruct (startswith base_url u).
Qed.

(** X5: every key of the dictionary starts with the origin of the site,
    and every image URL in it is not empty and does not start with two
    slashes. *)
Theorem collect_entries_wellformed (soup : node) :
  Forall (fun e : str * str =>
            startswith base_url (fst e) = true /\
            snd e <> [] /\
            startswith (lit "//") (snd e) = false)
    (collect_profiles urljoin soup).
Proof.
  unfold collect_profiles. apply listing_Forall; [|constructor].
  intros l c _. apply candidate_wellformed.
Qed.

End Dictionary.


(** ** The loop over the profiles *)

Lemma NoDup_map_fst_filter {A B : Type} (f : A * B -> bool) (l : list (A * B)) :
  List.NoDup (map fst l) -> List.NoDup (map fst (List.filter f l)).
Proof.
  induction l as [|x l IH]; cbn [map List.filter]; intros H; [constructor|].
  apply List.NoDup_cons_iff in H as [Hx Hl].
  destruct (f x); cbn [map]; [|now apply IH].
  constructor; [|now apply IH].
  intros Hin. apply Hx. apply in_map_iff in Hin as (y & <- & Hy).
  apply in_map. now apply filter_In in Hy.
Qed.

Section Loop.

Variable unicode_upper : N -> str.
Variable unicode_lower : str -> str.
Variable fetch : str -> fetched.

Lemma scrape_profiles_flat (items : dict) :
  scrape_profiles unicode_upper unicode_lower fetch items =
  flat_map (scrape_step unicode_upper unicode_lower fetch []) items.
Proof. unfold scrape_profiles. now rewrite scrape_profiles_from. Qed.

Lemma scrape_step_pairs (item : str * str) :
  map (fun r => (Page_URL r, Image_URL r))
    (scrape_step unicode_upper unicode_lower fetch [] item) =
  if fetched_ok fetch item then [item] else [].
Proof.
  destruct item as [url image_url]. unfold scrape_step, fetched_ok.
  cbn [fst]. destruct (fetch url) as [|code soup]; [reflexivity|].
  now destruct (code =? 200)%Z.
Qed.

Lemma scrape_profiles_pairs (items : dict) :
  map (fun r => (Page_URL r, Image_URL r))
    (scrape_profiles unicode_upper unicode_lower fetch items) =
  List.filter (fetched_ok fetch) items.
Proof.
  rewrite scrape_profiles_flat.
  induction items as [|item items IH]; [reflexivity|].
  cbn [flat_map List.filter]. rewrite map_app, IH, scrape_step_pairs.
  now destruct (fetched_ok fetch item).
Qed.

(** X6: a profile whose fetch raises, or answers with a status other than
    200, adds no record, and the profiles after it are processed as if it
    were not in the listing. *)
Theorem failed_fetch_skipped (pre post : dict) (url image_url : str) :
  (fetch url = Raised \/
   exists code soup, fetch url = Response code soup /\ code <> 200%Z) ->
  scrape_profiles unicode_upper unicode_lower fetch
    (pre ++ (url, image_url) :: post) =
  scrape_profiles unicode_upper unicode_lower fetch pre ++
  scrape_profiles unicode_upper unicode_lower fetch post.
Proof.
  intros H. rewrite !scrape_profiles_flat, flat_map_app. cbn [flat_map].
  replace (scrape_step unicode_upper unicode_lower fetch [] (url, image_url))
    with (@nil record); [reflexivity|].
  unfold scrape_step. destruct H as [-> | (code & soup & -> & Hc)];
    [reflexivity|].
  apply Z.eqb_neq in Hc. now rewrite Hc.
Qed.

(** X7: the records come in the order of the listing, one for each profile
    that is fetched with status 200 and none for the others, and each
    carries the URL and the image of its profile. *)
Theorem records_follow_listing (profiles_to_scrape : dict) :
  map (fun r => (Page_URL r, Image_URL r))
    (scrape_profiles unicode_upper unicode_lower fetch profiles_to_scrape) =
    List.filter (fetched_ok fetch) profiles_to_scrape /\
  (length (scrape_profiles unicode_upper unicode_lower fetch
             profiles_to_scrape)
   <= length profiles_to_scrape)%nat.
Proof.
  split; [apply scrape_profiles_pairs|].
  rewrite <- (length_map (fun r => (Page_URL r, Image_URL r))).
  rewrite scrape_profiles_pairs. apply List.filter_length_le.
Qed.

(** X8: run on the dictionary of a listing, the loop gives no two records
    with the same page URL. *)
Theorem records_unique_urls (urljoin : str -> str -> str) (soup : node) :
  List.NoDup
    (map Page_URL
       (scrape_profiles unicode_upper unicode_lower fetch
          (collect_profiles urljoin soup))).
Proof.
  assert (E : forall items,
            map Page_URL
              (scrape_profiles unicode_upper unicode_lower fetch items) =
            map fst (List.filter (fetched_ok fetch) items)).
  { intros items. rewrite <- scrape_profiles_pairs, map_map. reflexivity. }
  rewrite E. apply NoDup_map_fst_filter.
  rewrite collect_keys_uniq. apply uniq_NoDup.
Qed.

End Loop.

Lemma failed_fetch_skipped_witness :
  scrape_profiles (fun c => [c]) id fetch_sample
    ([] ++ (lit "https://www.liquorice.co.nz/talent/gone", [])
        :: [(lit "https://www.liquorice.co.nz/talent/jane-doe-sports-fan", [])])
  = [] ++ [extract (fun c => [c]) id
             (lit "https://www.liquorice.co.nz/talent/jane-doe-sports-fan") []
             sample_no_heading].
Proof.
  refine (eq_trans (failed_fetch_skipped (fun c => [c]) id fetch_sample
                      [] _ _ [] _) _).
  - right. exists 404%Z, sample_profile. split; [reflexivity | discriminate].
  - reflexivity.
Defined.

(** ** The recognizer, once more *)

Lemma strip_fixed (t : str) :
  (t = [] \/ exists c r, t = c :: r /\ isspace c = false) ->
  (t = [] \/ exists r c, t = r ++ [c] /\ isspace c = false) ->
  strip t = t.
Proof.
  intros [-> | (c & r & E & Hc)] Hlast; [reflexivity|].
  destruct Hlast as [-> | (r' & c' & E' & Hc')]; [reflexivity|].
  unfold strip. replace (lstrip t) with t by (rewrite E; simpl; now rewrite Hc).
  unfold rstrip. rewrite E', rev_app_distr. simpl. rewrite Hc'. simpl.
  now rewrite rev_involutive.
Qed.

Lemma strip_strip (s : str) : strip (strip s) = strip s.
Proof. apply strip_fixed; [apply strip_first | apply strip_last]. Qed.

Lemma clean_followers_nil : clean_followers [] = [].
Proof. reflexivity. Qed.

Lemma clean_followers_stripped (s : str) :
  strip (clean_followers s) = clean_followers s.
Proof.
  rewrite clean_followers_accepts.
  destruct (fullmatch followers_re (strip s)); [apply strip_strip | reflexivity].
Qed.

Lemma clean_followers_again (s : str) :
  clean_followers (clean_followers s) = clean_followers s.
Proof.
  rewrite (clean_followers_accepts s).
  destruct (fullmatch followers_re (strip s)) eqn:E; [|reflexivity].
  rewrite clean_followers_accepts, strip_strip. now rewrite E.
Qed.

(** X9: the recognizer is idempotent: what it returns it accepts
    unchanged, and its result has no white space at either end. *)
Theorem clean_followers_idempotent (s : str) :
  clean_followers (clean_followers s) = clean_followers s /\
  strip (clean_followers s) = clean_followers s.
Proof. split; [apply clean_followers_again | apply clean_followers_stripped]. Qed.

(** X10: every character of a result of the recognizer is a decimal digit,
    a comma, a point or one of the letters k, K, m, M; text with a blank, a
    sign or any other character inside is never returned. *)
Theorem clean_followers_alphabet (s : str) (c : N) :
  In c (clean_followers s) ->
  unicode_Nd c = true \/ c = comma \/ c = dot \/ magnitude c = true.
Proof.
  rewrite clean_followers_accepts.
  destruct (fullmatch followers_re (strip s)) eqn:E; [|contradiction].
  apply fullmatch_lang, followers_re_shape in E
    as (body & frac & suffix & -> & _ & Hb & Hf & Hs).
  rewrite forallb_forall in Hb. rewrite !in_app_iff.
  intros [H | [H | H]].
  - apply Hb, orb_true_iff in H as [H | H]; [now left|].
    right. left. now apply N.eqb_eq.
  - destruct Hf as [-> | (ds & -> & _ & Hd)]; [contradiction|].
    rewrite forallb_forall in Hd.
    destruct H as [<- | H]; [now right; right; left | left; now apply Hd].
  - destruct Hs as [-> | (m & -> & Hm)]; [contradiction|].
    destruct H as [<- | []]. now right; right; right.
Qed.

Lemma clean_followers_alphabet_witness :
  In 107 (clean_followers (lit " 12.3k ")) /\
  (unicode_Nd 107 = true \/ 107 = comma \/ 107 = dot \/ magnitude 107 = true).
Proof.
  assert (H : In 107 (clean_followers (lit " 12.3k ")))
    by (do 4 right; left; reflexivity).
  split; [exact H|].
  exact (clean_followers_alphabet (lit " 12.3k ") 107 H).
Defined.

Lemma strip_commas (n : nat) : strip (repeat comma n) = repeat comma n.
Proof.
  destruct n as [|n]; [reflexivity|]. apply strip_fixed; right.
  - now exists comma, (repeat comma n).
  - exists (repeat comma n), comma. split; [|reflexivity].
    change [comma] with (repeat comma 1). rewrite <- repeat_app.
    f_equal. lia.
Qed.

(** X11: a digit is not required: a text made of one or more commas and
    nothing else is accepted as a follower count. *)
Theorem clean_followers_commas_only (n : nat) :
  n <> O -> clean_followers (repeat comma n) = repeat comma n.
Proof.
  intros Hn. rewrite clean_followers_accepts, strip_commas.
  replace (fullmatch followers_re (repeat comma n)) with true; [reflexivity|].
  symmetry. apply fullmatch_lang, followers_re_shape.
  exists (repeat comma n), [], []. rewrite !app_nil_r.
  repeat split; [| |now left|now left].
  - destruct n; [congruence | discriminate].
  - apply forallb_forall. intros c Hc. apply repeat_spec in Hc as ->.
    apply orb_true_r.
Qed.

Lemma clean_followers_commas_only_witness :
  clean_followers (lit ",,") = lit ",,".
Proof. apply (clean_followers_commas_only 2). discriminate. Defined.

(** ** The fields of a record *)

Lemma walk_siblings_cleaned (siblings : list node) :
  exists s, walk_siblings siblings = clean_followers s.
Proof.
  induction siblings as [|sib rest IH]; [now exists []|].
  cbn [walk_siblings].
  destruct (truthy (clean_followers (sibling_text sib))).
  - now exists (sibling_text sib).
  - destruct (20 <? length (sibling_text sib))%nat; [now exists [] | exact IH].
Qed.

Lemma found_followers_cleaned (link : element) :
  exists s, found_followers link = clean_followers s.
Proof.
  unfold found_followers.
  assert (H : exists s,
    match next_sibling link with
    | Some (Text s) | Some (Special _ s) =>
        if truthy s
        then (if truthy (clean_followers s) then clean_followers s else [])
        else []
    | _ => []
    end = clean_followers s).
  { destruct (next_sibling link) as [[s|k s|nm at_ cs]|]; try (now exists []);
      (destruct (truthy s); [|now exists []]);
      (destruct (truthy (clean_followers s)); [now exists s | now exists []]). }
  destruct H as (s & ->).
  destruct (truthy (clean_followers s)); cbn [negb]; [now exists s|].
  destruct (parent link) as [p|]; [apply walk_siblings_cleaned | now exists s].
Qed.

Lemma handle_and_count_facts (m : element -> bool) (links : list element) :
  (forall l, m l = true -> href_of l <> []) ->
  let hc := handle_and_count m links in
  (exists s, snd hc = clean_followers s) /\
  (snd hc <> [] -> fst hc <> []) /\
  (fst hc <> [] ->
   exists l, In l links /\ m l = true /\ fst hc = href_of l) /\
  ((exists l, In l links /\ m l = true) -> fst hc <> []).
Proof.
  intros Hm. cbv zeta. unfold handle_and_count.
  destruct (List.find (fun l => m l && truthy (found_followers l)) links)
    as [l|] eqn:E1.
  - apply find_some in E1 as [Hin H]. apply andb_true_iff in H as [Hl Hf].
    cbn [fst snd]. repeat split.
    + apply found_followers_cleaned.
    + intros _. now apply Hm.
    + intros _. now exists l.
    + intros _. now apply Hm.
  - destruct (List.find m links) as [l|] eqn:E2; cbn [fst snd].
    + apply find_some in E2 as [Hin Hl]. repeat split.
      * now exists [].
      * congruence.
      * intros _. now exists l.
      * intros _. now apply Hm.
    + repeat split.
      * now exists [].
      * congruence.
      * congruence.
      * intros (l & Hin & Hl). pose proof (find_none _ _ E2 l Hin). congruence.
Qed.

Lemma join_space_edges (l : list str) :
  Forall (fun t => t <> [] /\ strip t = t) l ->
  join [32] l = [] \/
  (exists c r, join [32] l = c :: r /\ isspace c = false) /\
  (exists r c, join [32] l = r ++ [c] /\ isspace c = false).
Proof.
  induction 1 as [|t l [Hne Ht] Hl IH]; [now left | right].
  assert (Hfirst : exists c r, t = c :: r /\ isspace c = false).
  { destruct (strip_first t) as [E | H]; rewrite Ht in *; [congruence | exact H]. }
  assert (Hlast : exists r c, t = r ++ [c] /\ isspace c = false).
  { destruct (strip_last t) as [E | H]; rewrite Ht in *; [congruence | exact H]. }
  destruct l as [|t' l]; [now split|].
  change (join [32] (t :: t' :: l)) with (t ++ [32] ++ join [32] (t' :: l)).
  destruct Hfirst as (c & r & -> & Hc). split.
  - now exists c, (r ++ [32] ++ join [32] (t' :: l)).
  - destruct IH as [E | [_ (r' & c' & E & Hc')]].
    + exfalso. inversion Hl as [|? ? [Hne' _] _]; subst.
      cbn [join] in E. destruct l; [congruence|].
      destruct t'; [congruence | discriminate].
    + exists ((c :: r) ++ [32] ++ r'), c'. rewrite E.
      rewrite <- !app_assoc. now split.
Qed.

Lemma startswith_before_space (w x y : str) :
  forallb (fun c => negb (c =? 32)) w = true ->
  startswith w (x ++ 32 :: y) = startswith w x.
Proof.
  revert x. induction w as [|a w IH]; intros x Hw; [now destruct x|].
  cbn [forallb] in Hw. apply andb_true_iff in Hw as [Ha Hw].
  destruct x as [|c x]; cbn [app startswith].
  - apply negb_true_iff in Ha. now rewrite Ha.
  - now rewrite IH.
Qed.

Lemma contains_across_space (w x y : str) :
  w <> [] -> forallb (fun c => negb (c =? 32)) w = true ->
  contains w (x ++ 32 :: y) = contains w x || contains w y.
Proof.
  intros Hne Hw. induction x as [|c x IH].
  - destruct w as [|a w]; [congruence|].
    cbn [forallb] in Hw. apply andb_true_iff in Hw as [Ha _].
    apply negb_true_iff in Ha.
    cbn [app]. cbn [contains startswith]. now rewrite Ha.
  - change ((c :: x) ++ 32 :: y) with (c :: (x ++ 32 :: y)).
    cbn [contains]. rewrite IH.
    change (c :: (x ++ 32 :: y)) with ((c :: x) ++ 32 :: y).
    rewrite startswith_before_space by exact Hw.
    now rewrite orb_assoc.
Qed.

Section Fields.

Variable unicode_upper : N -> str.
Variable unicode_lower : str -> str.

Lemma paragraphs_kept (soup : node) :
  kept (survives unicode_upper) (paragraph_texts soup)
    (paragraphs unicode_upper soup).
Proof.
  unfold paragraphs, paragraph_texts. rewrite flat_map_nested.
  apply kept_keep_paragraph.
Qed.

Lemma paragraphs_tidy (soup : node) :
  Forall (fun t => t <> [] /\ strip t = t) (paragraphs unicode_upper soup).
Proof.
  apply List.Forall_forall. intros t Hin.
  pose proof (kept_In _ _ _ _ (paragraphs_kept soup) Hin) as (Hne & _).
  split; [exact Hne|].
  apply (kept_incl _ _ _ _ (paragraphs_kept soup)), in_map_iff in Hin
    as (p & <- & _).
  apply strip_get_text_strip.
Qed.

Lemma socials_instagram_pair (soup : node) :
  let st := socials_of unicode_lower soup in
  (ig_handle st, ig_followers st) =
  handle_and_count (on_platform unicode_lower (lit "instagram.com"))
    (anchors soup).
Proof.
  cbv zeta. unfold socials_of. rewrite socials_fold_instagram. simpl.
  rewrite platform_fold_empty; [reflexivity|].
  intros l. now apply on_platform_href.
Qed.

Lemma socials_tiktok_pair (soup : node) :
  let st := socials_of unicode_lower soup in
  (tt_handle st, tt_followers st) =
  handle_and_count (on_platform unicode_lower (lit "tiktok.com"))
    (anchors soup).
Proof.
  cbv zeta. unfold socials_of. rewrite socials_fold_tiktok. simpl.
  rewrite platform_fold_empty; [reflexivity|].
  intros l. now apply on_platform_href.
Qed.

Lemma socials_facts (soup : node) (domain : str) (h f : str) :
  domain <> [] ->
  (h, f) = handle_and_count (on_platform unicode_lower domain) (anchors soup) ->
  (exists s, f = clean_followers s) /\
  (f <> [] -> h <> []) /\
  (h <> [] ->
   exists l, In l (anchors soup) /\
             on_platform unicode_lower domain l = true /\ h = href_of l) /\
  ((exists l, In l (anchors soup) /\ on_platform unicode_lower domain l = true)
   -> h <> []).
Proof.
  intros Hd E.
  pose proof (handle_and_count_facts (on_platform unicode_lower domain)
                (anchors soup)
                (fun l => on_platform_href unicode_lower domain l Hd)) as H.
  cbv zeta in H. rewrite <- E in H. exact H.
Qed.

(** X12: in every record the name, the biography and the two follower
    counts have no white space at either end. *)
Theorem record_fields_trimmed (url image_url : str) (soup : node) :
  let r := extract unicode_upper unicode_lower url image_url soup in
  strip (Name r) = Name r /\
  strip (Bio r) = Bio r /\
  strip (Instagram_Followers r) = Instagram_Followers r /\
  strip (TikTok_Followers r) = TikTok_Followers r.
Proof.
  cbv zeta. unfold extract. cbn [Name Bio Instagram_Followers TikTok_Followers].
  repeat split.
  - unfold name_text. destruct (find (lit "h1") soup);
      [apply strip_get_text_strip | reflexivity].
  - unfold bio_text.
    assert (H : Forall (fun t => t <> [] /\ strip t = t)
                  (take 5 (paragraphs unicode_upper soup))).
    { apply List.Forall_forall. intros t Ht.
      pose proof (paragraphs_tidy soup) as Hp. rewrite List.Forall_forall in Hp.
      apply Hp. apply list_elem_of_In. apply list_elem_of_In in Ht.
      revert Ht. apply subseteq_take. }
    destruct (join_space_edges _ H) as [E | [H1 H2]].
    + change (lit " ") with [32]. now rewrite E.
    + apply strip_fixed; now right.
  - destruct (socials_facts soup (lit "instagram.com") _ _ ltac:(discriminate)
                (socials_instagram_pair soup)) as ((s & ->) & _).
    apply clean_followers_stripped.
  - destruct (socials_facts soup (lit "tiktok.com") _ _ ltac:(discriminate)
                (socials_tiktok_pair soup)) as ((s & ->) & _).
    apply clean_followers_stripped.
Qed.

(** X13: the biography as a whole, put in upper case, contains none of the
    words TIKTOK, INSTAGRAM, FOLLOWERS and CONTACT: joining the paragraphs
    with spaces cannot bring one back. *)
Theorem bio_without_noise (soup : node) (w : str) :
  In w noise_words ->
  contains w (upper unicode_upper (bio_text unicode_upper soup)) = false.
Proof.
  intros Hw.
  assert (Hne : w <> []).
  { cbn [noise_words In] in Hw.
    destruct Hw as [<- | [<- | [<- | [<- | []]]]]; discriminate. }
  assert (Hsp : forallb (fun c => negb (c =? 32)) w = true).
  { cbn [noise_words In] in Hw.
    destruct Hw as [<- | [<- | [<- | [<- | []]]]]; reflexivity. }
  unfold bio_text. change (lit " ") with [32].
  assert (H : Forall (fun t => contains w (upper unicode_upper t) = false)
                (take 5 (paragraphs unicode_upper soup))).
  { apply List.Forall_forall. intros t Ht.
    assert (Hin : In t (paragraphs unicode_upper soup)).
    { apply list_elem_of_In. apply list_elem_of_In in Ht.
      revert Ht. apply subseteq_take. }
    pose proof (kept_In _ _ _ _ (paragraphs_kept soup) Hin) as (_ & Hc & _).
    now apply Hc. }
  induction H as [|t l Ht Hl IH].
  - cbn. destruct w; [congruence | reflexivity].
  - destruct l as [|t' l]; [exact Ht|].
    change (join [32] (t :: t' :: l)) with (t ++ [32] ++ join [32] (t' :: l)).
    rewrite upper_app. change ([32] ++ join [32] (t' :: l))
      with (32 :: join [32] (t' :: l)).
    change (upper unicode_upper (32 :: join [32] (t' :: l)))
      with (32 :: upper unicode_upper (join [32] (t' :: l))).
    rewrite contains_across_space by assumption.
    now rewrite Ht, IH.
Qed.

(** X14: each follower count of a page is one the recognizer accepts
    unchanged (the empty one included), and a platform never has a count
    without a handle. *)
Theorem followers_accepted_with_handle (soup : node) :
  let st := socials_of unicode_lower soup in
  clean_followers (ig_followers st) = ig_followers st /\
  clean_followers (tt_followers st) = tt_followers st /\
  (ig_followers st <> [] -> ig_handle st <> []) /\
  (tt_followers st <> [] -> tt_handle st <> []).
Proof.
  cbv zeta.
  destruct (socials_facts soup (lit "instagram.com") _ _ ltac:(discriminate)
              (socials_instagram_pair soup)) as ((s & Es) & Hi & _).
  destruct (socials_facts soup (lit "tiktok.com") _ _ ltac:(discriminate)
              (socials_tiktok_pair soup)) as ((s' & Es') & Ht & _).
  repeat split; try assumption.
  - rewrite Es. apply clean_followers_again.
  - rewrite Es'. apply clean_followers_again.
Qed.

(** X15: a platform has a handle exactly when some anchor of the page has
    the domain of the platform in its [href] put in lower case, and the
    handle is then the [href] of such an anchor as the page writes it. *)
Theorem handle_of_platform_anchor (soup : node) :
  let st := socials_of unicode_lower soup in
  let ig := on_platform unicode_lower (lit "instagram.com") in
  let tt := on_platform unicode_lower (lit "tiktok.com") in
  (ig_handle st <> [] <->
   exists l, In l (anchors soup) /\ ig l = true) /\
  (tt_handle st <> [] <->
   exists l, In l (anchors soup) /\ tt l = true) /\
  (ig_handle st <> [] ->
   exists l, In l (anchors soup) /\ ig l = true /\ ig_handle st = href_of l) /\
  (tt_handle st <> [] ->
   exists l, In l (anchors soup) /\ tt l = true /\ tt_handle st = href_of l).
Proof.
  cbv zeta.
  destruct (socials_facts soup (lit "instagram.com") _ _ ltac:(discriminate)
              (socials_instagram_pair soup)) as (_ & _ & Hi1 & Hi2).
  destruct (socials_facts soup (lit "tiktok.com") _ _ ltac:(discriminate)
              (socials_tiktok_pair soup)) as (_ & _ & Ht1 & Ht2).
  repeat split; try assumption.
  - intros H. destruct (Hi1 H) as (l & Hin & Hl & _). now exists l.
  - intros H. destruct (Ht1 H) as (l & Hin & Hl & _). now exists l.
Qed.

End Fields.

Lemma bio_without_noise_witness :
  contains (lit "FOLLOWERS")
    (upper (fun c => [c]) (bio_text (fun c => [c]) sample_profile)) = false.
Proof.
  apply (bio_without_noise (fun c => [c]) sample_profile (lit "FOLLOWERS")).
  right. right. left. reflexivity.
Defined.

Lemma followers_accepted_with_handle_witness :
  let st := socials_of id sample_profile in
  ig_followers st <> [] /\ ig_handle st <> [].
Proof.
  cbv zeta.
  assert (H : ig_followers (socials_of id sample_profile) <> [])
    by (vm_compute; discriminate).
  split; [exact H|].
  exact (proj1 (proj2 (proj2
    (followers_accepted_with_handle id sample_profile))) H).
Defined.

Lemma handle_of_platform_anchor_witness :
  let st := socials_of id sample_profile in
  tt_handle st <> [] /\
  exists l, In l (anchors sample_profile) /\
            on_platform id (lit "tiktok.com") l = true /\
            tt_handle st = href_of l.
Proof.
  cbv zeta.
  assert (H : tt_handle (socials_of id sample_profile) <> [])
    by (vm_compute; discriminate).
  split; [exact H|].
  exact (proj2 (proj2 (proj2
    (handle_of_platform_anchor id sample_profile))) H).
Defined.

(** ** The generators: rows that fail *)

Ltac in_list := repeat first [left; reflexivity | right].

(** The row fails at the column [k], whose lookup is the hypothesis at
    hand. *)
Ltac row_fails k :=
  exists k; split; [in_list|]; split; [assumption|];
  unfold GenerateSql.val_str, getitem;
  repeat match goal with
         | H : _ !! _ = _ |- _ => rewrite H
         end;
  reflexivity.

Lemma val_str_cases (row : gmap str (option str)) :
  (exists name page image bio ig igf tt ttf,
     row !! lit "Name" = Some (Some name) /\
     row !! lit "Page URL" = Some (Some page) /\
     row !! lit "Image URL" = Some (Some image) /\
     row !! lit "Bio" = Some (Some bio) /\
     row !! lit "Instagram" = Some (Some ig) /\
     row !! lit "Instagram Followers" = Some (Some igf) /\
     row !! lit "TikTok" = Some (Some tt) /\
     row !! lit "TikTok Followers" = Some (Some ttf) /\
     GenerateSql.val_str row =
     Ok (tuple_text GenerateSql.user_id (escape name)
           (GenerateSql.category_of (escape page)) (lit "active")
           (escape image) (escape ig) (escape igf) (escape tt) (escape ttf)
           (escape page) (escape bio))) \/
  (exists k, In k fieldnames /\ row !! k = None /\
             GenerateSql.val_str row = Raise (KeyError k)) \/
  (exists k, In k fieldnames /\ row !! k = Some None /\
             GenerateSql.val_str row = Raise AttributeError).
Proof.
  destruct (row !! lit "Name") as [[name|]|] eqn:E1;
    [| right; right; row_fails (lit "Name")
     | right; left; row_fails (lit "Name") ].
  destruct (row !! lit "Page URL") as [[page|]|] eqn:E2;
    [| right; right; row_fails (lit "Page URL")
     | right; left; row_fails (lit "Page URL") ].
  destruct (row !! lit "Image URL") as [[image|]|] eqn:E3;
    [| right; right; row_fails (lit "Image URL")
     | right; left; row_fails (lit "Image URL") ].
  destruct (row !! lit "Bio") as [[bio|]|] eqn:E4;
    [| right; right; row_fails (lit "Bio")
     | right; left; row_fails (lit "Bio") ].
  destruct (row !! lit "Instagram") as [[ig|]|] eqn:E5;
    [| right; right; row_fails (lit "Instagram")
     | right; left; row_fails (lit "Instagram") ].
  destruct (row !! lit "Instagram Followers") as [[igf|]|] eqn:E6;
    [| right; right; row_fails (lit "Instagram Followers")
     | right; left; row_fails (lit "Instagram Followers") ].
  destruct (row !! lit "TikTok") as [[tt|]|] eqn:E7;
    [| right; right; row_fails (lit "TikTok")
     | right; left; row_fails (lit "TikTok") ].
  destruct (row !! lit "TikTok Followers") as [[ttf|]|] eqn:E8;
    [| right; right; row_fails (lit "TikTok Followers")
     | right; left; row_fails (lit "TikTok Followers") ].
  left. exists name, page, image, bio, ig, igf, tt, ttf.
  repeat split; try reflexivity.
  now apply val_str_full.
Qed.

(** X16: a row gives its tuple when it has the eight columns of the header,
    each with a field; otherwise it raises: [KeyError] for a column of the
    header that the row lacks, [AttributeError] for a column whose field is
    [None].  Nothing else can happen. *)
Theorem val_str_outcomes (row : gmap str (option str)) :
  ((exists t, GenerateSql.val_str row = Ok t) <->
   forall k, In k fieldnames -> exists v, row !! k = Some (Some v)) /\
  (forall e, GenerateSql.val_str row = Raise e ->
     (exists k, In k fieldnames /\ row !! k = None /\ e = KeyError k) \/
     (exists k, In k fieldnames /\ row !! k = Some None /\ e = AttributeError)).
Proof.
  destruct (val_str_cases row)
    as [(name & page & image & bio & ig & igf & tt & ttf &
         H1 & H2 & H3 & H4 & H5 & H6 & H7 & H8 & E)
       | [(k & Hk & Hn & E) | (k & Hk & Hn & E)]].
  - split; [|intros e He; congruence].
    split; [|intros _; eauto].
    intros _ k Hk. cbn [fieldnames In] in Hk.
    destruct Hk as [<- | [<- | [<- | [<- | [<- | [<- | [<- | [<- | []]]]]]]]];
      eauto.
  - split.
    + split; [intros (t & Ht); congruence|].
      intros H. destruct (H k Hk) as (v & Hv). congruence.
    + intros e He. left. exists k. repeat split; try assumption. congruence.
  - split.
    + split; [intros (t & Ht); congruence|].
      intros H. destruct (H k Hk) as (v & Hv). congruence.
    + intros e He. right. exists k. repeat split; try assumption. congruence.
Qed.

Lemma val_str_outcomes_witness :
  GenerateSql.val_str row_without_bio = Raise (KeyError (lit "Bio")) /\
  GenerateSql.val_str row_short = Raise AttributeError /\
  exists t, GenerateSql.val_str jane_row = Ok t.
Proof.
  split; [reflexivity|]. split; [reflexivity|].
  apply (proj1 (val_str_outcomes jane_row)).
  intros k Hk. cbn [fieldnames In] in Hk.
  destruct Hk as [<- | [<- | [<- | [<- | [<- | [<- | [<- | [<- | []]]]]]]]];
    eexists; reflexivity.
Defined.

(** X17: when a row raises, the single-statement generator has printed the
    deletion statement and nothing else, and the statement-per-row
    generator has printed the deletion statement and the statements of the
    rows before the failing one; neither renders a row after it. *)
Theorem failing_row_output (good rest : list (gmap str (option str)))
    (bad : gmap str (option str)) (vs : list str) (e : exn) :
  tuples GenerateSql.val_str good = Ok vs ->
  GenerateSql.val_str bad = Raise e ->
  GenerateSql.main (good ++ bad :: rest) = Run [delete_statement] (Some e) /\
  GenerateSqlLines.main (good ++ bad :: rest) =
    Run (delete_statement :: map GenerateSqlLines.sql_of vs) (Some e).
Proof.
  intros Hg Hb. split.
  - unfold GenerateSql.main. rewrite collect_tuples.
    now rewrite (tuples_app_fails _ _ _ _ _ _ Hg Hb).
  - unfold GenerateSqlLines.main.
    now rewrite (loop_app_fails _ good rest bad vs e Hg Hb).
Qed.

Lemma failing_row_output_witness :
  GenerateSqlLines.main ([jane_row] ++ row_cut :: [brien_row]) =
  Run [ delete_statement;
        lit "INSERT INTO public.talents (user_id, name, category, status, avatar_url, instagram_handle, followers, tiktok_handle, tiktok_followers, source_url, bio) VALUES ('eff94470-6759-4490-9c94-8277546e8ea9', 'Jane Doe', 'Sports', 'active', '//images.example.com/jane.jpg', 'https://instagram.com/janedoe', '12.3k', '', '', 'https://example.com/talent/jane-doe-sports-fan', 'Runner and coach.');" ]
      (Some AttributeError).
Proof.
  exact (proj2 (failing_row_output [jane_row] [brien_row] row_cut
                  _ AttributeError eq_refl eq_refl)).
Defined.

Lemma tuples_length (f : gmap str (option str) -> result str)
    (rows : list (gmap str (option str))) (vs : list str) :
  tuples f rows = Ok vs -> length vs = length rows.
Proof.
  revert vs. induction rows as [|row rows IH]; intros vs H.
  - now injection H as <-.
  - cbn [tuples] in H. destruct (f row) as [v|e]; [|discriminate].
    cbn [bind] in H. destruct (tuples f rows) as [vs'|e]; [|discriminate].
    injection H as <-. cbn [length]. now rewrite (IH vs' eq_refl).
Qed.

Lemma join_line_feeds (values : list str) :
  count_occ N.eq_dec (join [44; 10] values) 10 =
  (Nat.pred (length values) + count_occ N.eq_dec (concat values) 10%N)%nat.
Proof.
  induction values as [|p values IH]; [reflexivity|].
  destruct values as [|q values].
  - cbn [join concat length Nat.pred]. now rewrite app_nil_r.
  - change (join [44; 10] (p :: q :: values))
      with (p ++ [44; 10] ++ join [44; 10] (q :: values)).
    change (concat (p :: q :: values)) with (p ++ concat (q :: values)).
    rewrite !count_occ_app, IH.
    change (count_occ N.eq_dec [44; 10] 10) with 1%nat.
    cbn [length Nat.pred]. lia.
Qed.

(** X18: when every row gives its tuple, the single-statement generator
    calls print twice whatever the number of rows, for the deletion and for
    one insertion that holds all the tuples; the text of that insertion has
    a line feed between two neighbouring tuples, so besides the line feeds
    inside the fields it holds one less than there are rows.  The
    statement-per-row generator calls print once for the deletion and once
    for each row.  Without rows the first still prints an insertion, with
    nothing after VALUES, and the second prints the deletion statement
    only. *)
Theorem statement_counts (rows : list (gmap str (option str)))
    (values : list str) :
  tuples GenerateSql.val_str rows = Ok values ->
  (exists insertion,
     printed (GenerateSql.main rows) = [delete_statement; insertion] /\
     count_occ N.eq_dec insertion 10 =
     (Nat.pred (length rows) + count_occ N.eq_dec (concat values) 10%N)%nat) /\
  length (printed (GenerateSqlLines.main rows)) = S (length rows) /\
  GenerateSql.main [] =
    Run [ delete_statement;
          lit "INSERT INTO public.talents (user_id, name, category, status, avatar_url, instagram_handle, followers, tiktok_handle, tiktok_followers, source_url, bio) VALUES ;" ]
        None /\
  GenerateSqlLines.main [] = Run [delete_statement] None.
Proof.
  intros H. repeat split; try reflexivity.
  - exists (insert_into ++ join [44; 10] values ++ lit ";"). split.
    + unfold GenerateSql.main. rewrite collect_tuples, H. reflexivity.
    + rewrite !count_occ_app, join_line_feeds, (tuples_length _ _ _ H).
      change (count_occ N.eq_dec insert_into 10) with O.
      change (count_occ N.eq_dec (lit ";") 10) with O. lia.
  - pose proof (loop_tuples [delete_statement] rows) as L.
    change (tuples GenerateSqlLines.val_str rows)
      with (tuples GenerateSql.val_str rows) in L.
    rewrite H in L. unfold GenerateSqlLines.main.
    fold delete_statement. rewrite L. cbn [printed app length].
    now rewrite length_map, (tuples_length _ _ _ H).
Qed.

Lemma statement_counts_witness :
  (exists insertion,
     printed (GenerateSql.main [jane_row; brien_row])
       = [delete_statement; insertion] /\
     count_occ N.eq_dec insertion 10 = 1%nat) /\
  length (printed (GenerateSqlLines.main [jane_row; brien_row])) = 3%nat.
Proof.
  destruct (statement_counts [jane_row; brien_row] _ eq_refl)
    as ((insertion & H1 & H2) & H3 & _).
  split; [|exact H3]. exists insertion. split; [exact H1|].
  rewrite H2. vm_compute. reflexivity.
Defined.

(** ** The generators: what escaping keeps *)

Lemma unquote_escape (s : str) : unquote (escape s) = Some s.
Proof.
  induction s as [|c s IH]; [reflexivity|].
  cbn [escape flat_map]. fold (escape s).
  destruct (N.eqb_spec c 39) as [-> | Hc].
  - cbn [app unquote N.eqb Pos.eqb]. now rewrite IH.
  - cbn [app unquote]. destruct (N.eqb_spec c 39); [contradiction|].
    now rewrite IH.
Qed.

(** X19: escaping loses nothing.  Read as the inside of a quoted literal,
    where two quotes stand for one, an escaped field gives the field back;
    so two fields that differ are escaped to texts that differ. *)
Theorem escaping_round_trip (a b : str) :
  (forall t, replace_quotes (Some a) = Ok t -> unquote t = Some a) /\
  (replace_quotes (Some a) = replace_quotes (Some b) -> a = b).
Proof.
  cbn [replace_quotes]. rewrite !replace_quotes_escape. split.
  - intros t [= <-]. apply unquote_escape.
  - intros [= E].
    assert (H : unquote (escape a) = unquote (escape b)) by now rewrite E.
    rewrite !unquote_escape in H. congruence.
Qed.

Lemma escaping_round_trip_witness :
  unquote (lit "It''s O''Brien''s") = Some (lit "It's O'Brien's").
Proof.
  exact (proj1 (escaping_round_trip (lit "It's O'Brien's") [])
           (lit "It''s O''Brien''s") eq_refl).
Defined.

Lemma startswith_escape (w s : str) :
  forallb (fun c => negb (c =? 39)) w = true ->
  startswith w (escape s) = startswith w s.
Proof.
  revert s. induction w as [|a w IH]; intros s Hw; [now destruct s|].
  cbn [forallb] in Hw. apply andb_true_iff in Hw as [Ha Hw].
  apply negb_true_iff in Ha.
  destruct s as [|c s]; [reflexivity|].
  cbn [escape flat_map]. fold (escape s).
  destruct (N.eqb_spec c 39) as [-> | Hc].
  - cbn [app startswith]. now rewrite Ha.
  - cbn [app startswith]. now rewrite IH.
Qed.

Lemma contains_escape (w s : str) :
  w <> [] -> forallb (fun c => negb (c =? 39)) w = true ->
  contains w (escape s) = contains w s.
Proof.
  intros Hne Hw. induction s as [|c s IH]; [reflexivity|].
  assert (Hq : forall t, startswith w (39 :: t) = false).
  { intros t. destruct w as [|a w]; [congruence|].
    cbn [forallb] in Hw. apply andb_true_iff in Hw as [Ha _].
    apply negb_true_iff in Ha. cbn [startswith]. now rewrite Ha. }
  cbn [escape flat_map]. fold (escape s).
  destruct (N.eqb_spec c 39) as [-> | Hc].
  - cbn [app contains]. now rewrite !Hq, IH.
  - cbn [app]. cbn [contains]. rewrite IH. f_equal.
    destruct w as [|a w]; [congruence|].
    cbn [forallb] in Hw. apply andb_true_iff in Hw as [_ Hw].
    cbn [startswith]. now rewrite startswith_escape.
Qed.

(** X20: the category is looked for in the page URL after its quotes are
    doubled, and the doubling never changes it: the category of a row is
    the one its page URL has as the CSV file gives it. *)
Theorem category_ignores_escaping (page : str) :
  GenerateSql.category_of (replace quote (quote ++ quote) page) =
    GenerateSql.category_of page /\
  GenerateSqlLines.category_of (replace quote (quote ++ quote) page) =
    GenerateSqlLines.category_of page.
Proof.
  rewrite replace_quotes_escape.
  unfold GenerateSql.category_of, GenerateSqlLines.category_of.
  rewrite !contains_escape by (discriminate || reflexivity).
  now split.
Qed.

(** ** The biography: containers inside containers *)

Lemma node_induction (P : node -> Prop) :
  (forall s, P (Text s)) ->
  (forall k s, P (Special k s)) ->
  (forall nm at_ cs, List.Forall P cs -> P (Tag nm at_ cs)) ->
  forall n, P n.
Proof.
  intros HText HSpecial HTag. fix IH 1.
  intros [s|k s|nm at_ cs]; [apply HText | apply HSpecial |].
  apply HTag. revert cs. fix IHcs 1.
  intros [|c cs]; constructor; [apply IH | apply IHcs].
Qed.

(** The descendants of a descendant lie together, right after it. *)
Lemma descendants_split (n d : node) :
  In d (descendants n) ->
  exists a b, descendants n = a ++ d :: descendants d ++ b.
Proof.
  revert d. induction n as [s|k s|nm at_ cs IH] using node_induction;
    intros d Hd; try contradiction.
  change (descendants (Tag nm at_ cs))
    with (flat_map (fun c => c :: descendants c) cs) in *.
  induction IH as [|c cs Hc _ IHcs]; [contradiction|].
  cbn [flat_map] in *. apply in_app_or in Hd as [[<- | Hd] | Hd].
  - exists [], (flat_map (fun c => c :: descendants c) cs). reflexivity.
  - destruct (Hc d Hd) as (a & b & E).
    exists (c :: a), (b ++ flat_map (fun c => c :: descendants c) cs).
    rewrite E. cbn [app]. rewrite <- ?app_assoc. cbn [app].
    rewrite <- ?app_assoc. reflexivity.
  - destruct (IHcs Hd) as (a & b & E).
    exists ((c :: descendants c) ++ a), b. rewrite E.
    rewrite <- ?app_assoc. reflexivity.
Qed.

Lemma descendants_trans (n d x : node) :
  In d (descendants n) -> In x (descendants d) -> In x (descendants n).
Proof.
  intros Hd Hx. destruct (descendants_split n d Hd) as (a & b & ->).
  apply in_or_app. right. right. apply in_or_app. now left.
Qed.

Section Nested.

Variable unicode_upper : N -> str.

(** X21: when a content container lies anywhere below another content
    container of a page, every paragraph below the inner one that the
    biography keeps is in the list of kept paragraphs twice, once for each
    container, whatever else the page holds. *)
Theorem nested_container_read_twice (soup outer inner q : node) (t : str) :
  let cls := lit "sqs-html-content" in
  In outer (descendants soup) -> has_class cls outer = true ->
  In inner (descendants outer) -> has_class cls inner = true ->
  In q (find_all (lit "p") inner) ->
  keep_paragraph unicode_upper q = [t] ->
  exists a b c, paragraphs unicode_upper soup = a ++ t :: b ++ t :: c.
Proof.
  cbv zeta. intros Ho Hco Hi Hci Hq Hk.
  set (g := fun div : node =>
              flat_map (keep_paragraph unicode_upper)
                (find_all (lit "p") div)).
  assert (Hg : forall div, In q (find_all (lit "p") div) ->
                 exists x y, g div = x ++ t :: y).
  { intros div Hin. apply in_split. unfold g. apply in_flat_map.
    exists q. split; [exact Hin|]. rewrite Hk. now left. }
  assert (Hqo : In q (find_all (lit "p") outer)).
  { unfold find_all in *. apply filter_In in Hq as [Hq Hn].
    apply filter_In. split; [|exact Hn].
    now apply (descendants_trans outer inner q). }
  destruct (Hg outer Hqo) as (x1 & y1 & E1).
  destruct (Hg inner Hq) as (x2 & y2 & E2).
  destruct (descendants_split soup outer Ho) as (a & b & Es).
  assert (Hin : In inner (List.filter (has_class (lit "sqs-html-content"))
                            (descendants outer)))
    by (apply filter_In; now split).
  apply in_split in Hin as (m1 & m2 & Em).
  unfold paragraphs, find_all_class. fold g.
  rewrite Es, List.filter_app. cbn [List.filter].
  rewrite Hco, List.filter_app, Em.
  rewrite flat_map_app. cbn [flat_map]. rewrite !flat_map_app.
  cbn [flat_map]. rewrite E1, E2.
  exists (flat_map g (List.filter (has_class (lit "sqs-html-content")) a)
          ++ x1),
    (y1 ++ flat_map g m1 ++ x2),
    (y2 ++ flat_map g m2
     ++ flat_map g (List.filter (has_class (lit "sqs-html-content")) b)).
  rewrite <- !app_assoc. cbn [app]. rewrite <- ?app_assoc. reflexivity.
Qed.

End Nested.

Lemma nested_container_read_twice_witness :
  paragraphs (fun c => [c]) sample_nested_page =
    [ lit "Welcome."; lit "Runner and coach."; lit "Based in Auckland.";
      lit "Runner and coach." ] /\
  exists a b c,
    paragraphs (fun c => [c]) sample_nested_page =
    a ++ lit "Runner and coach." :: b ++ lit "Runner and coach." :: c.
Proof.
  split; [vm_compute; reflexivity|].
  refine (nested_container_read_twice (fun c => [c]) sample_nested_page
            (nth 2 (descendants sample_nested_page) (Text []))
            (nth 6 (descendants sample_nested_page) (Text []))
            (para "Runner and coach.") (lit "Runner and coach.")
            _ _ _ _ _ _).
  - vm_compute. do 2 right. left. reflexivity.
  - reflexivity.
  - vm_compute. do 3 right. left. reflexivity.
  - reflexivity.
  - vm_compute. left. reflexivity.
  - reflexivity.
Defined.

(** ** From the listing to the records *)

Section Pipeline.

Variable urljoin : str -> str -> str.
Variable unicode_upper : N -> str.
Variable unicode_lower : str -> str.
Variable fetch : str -> fetched.

(** X22: every record of a run over a listing has a page URL that starts
    with the origin of the site and an image URL that is not empty and does
    not start with two slashes. *)
Theorem records_wellformed_urls (soup : node) (r : record) :
  In r (scrape_profiles unicode_upper unicode_lower fetch
          (collect_profiles urljoin soup)) ->
  startswith base_url (Page_URL r) = true /\
  Image_URL r <> [] /\
  startswith (lit "//") (Image_URL r) = false.
Proof.
  intros Hr.
  assert (Hin : In (Page_URL r, Image_URL r) (collect_profiles urljoin soup)).
  { apply (in_map (fun r => (Page_URL r, Image_URL r))) in Hr.
    rewrite scrape_profiles_pairs in Hr. now apply filter_In in Hr. }
  assert (H : List.Forall (fun e : str * str =>
                startswith base_url (fst e) = true /\
                snd e <> [] /\
                startswith (lit "//") (snd e) = false)
              (collect_profiles urljoin soup)).
  { unfold collect_profiles. apply listing_Forall; [|constructor].
    intros l c _. apply candidate_wellformed. }
  rewrite List.Forall_forall in H. exact (H _ Hin).
Qed.

End Pipeline.

Lemma records_wellformed_urls_witness :
  exists r,
    scrape_profiles (fun c => [c]) id fetch_sample
      (collect_profiles urljoin_sample sample_listing) = [r] /\
    Page_URL r = lit "https://www.liquorice.co.nz/talent/jane-doe-sports-fan" /\
    Image_URL r <> [].
Proof.
  eexists. split; [vm_compute; reflexivity|]. split; [reflexivity|].
  refine (proj1 (proj2 (records_wellformed_urls urljoin_sample (fun c => [c])
                          id fetch_sample sample_listing _ _))).
  vm_compute. left. reflexivity.
Defined.
